(** * Playlist backend: a shallow embedding of [app.py] and [db.py]

    The Flask handlers of [app.py] and the SQLAlchemy models of [db.py]
    are rendered as functions over an explicit [World]: the committed
    rows of the SQLite file, the objects of the storage bucket, the
    lines printed so far and the number of random draws consumed.
    A handler either returns a response or lets an exception escape. *)

From Stdlib Require Import ZArith List String Ascii Bool Lia.
Import ListNotations.
Open Scope string_scope.
Open Scope Z_scope.
#[local] Set Warnings "-register-all".

(** ** JSON values, as handed to [json.dumps] *)

Inductive json : Type :=
| JNull
| JInt (z : Z)
| JStr (s : string)
| JList (items : list json)
| JObj (fields : list (string * json)).

(** Python [==] on the values above.  Both operands of every comparison
    made by the handlers come out of the same serializer, so their keys
    are listed in the same order. *)
Fixpoint json_eqb (a b : json) : bool :=
  match a, b with
  | JNull, JNull => true
  | JInt x, JInt y => Z.eqb x y
  | JStr x, JStr y => String.eqb x y
  | JList x, JList y =>
      (fix items l1 l2 :=
         match l1, l2 with
         | [], [] => true
         | h1 :: t1, h2 :: t2 => json_eqb h1 h2 && items t1 t2
         | _, _ => false
         end) x y
  | JObj x, JObj y =>
      (fix fields l1 l2 :=
         match l1, l2 with
         | [], [] => true
         | (k1, v1) :: t1, (k2, v2) :: t2 =>
             String.eqb k1 k2 && json_eqb v1 v2 && fields t1 t2
         | _, _ => false
         end) x y
  | _, _ => false
  end.

(** [d[key]] on a serialized row *)
Definition subscript (d : json) (key : string) : json :=
  match d with
  | JObj fields =>
      match find (fun kv => String.eqb (fst kv) key) fields with
      | Some kv => snd kv
      | None => JNull
      end
  | _ => JNull
  end.

(** [x in xs] on a Python list of serialized rows. *)
Definition py_in (x : json) (xs : list json) : bool := existsb (json_eqb x) xs.

Definition opt_json {A} (f : A -> json) (o : option A) : json :=
  match o with Some a => f a | None => JNull end.

(** ** Exceptions and the state-and-exception monad *)

(** The steps of [Asset.upload] that call out of the program. *)
Inductive upload_step : Type := ImgSave | UploadFile | AclPut | OsRemove.

Inductive exn : Type :=
| JSONDecodeError
| AttributeError
| TypeError
| DecodeError
| UnidentifiedImageError
| IntegrityError
| OverflowError
| StaleDataError
| UnmappedInstanceError
| IOError (step : upload_step)
| Exception_ (msg : string).

Inductive result (A : Type) : Type :=
| Ok (a : A)
| Raise (e : exn).
Arguments Ok {A} a.
Arguments Raise {A} e.

(** A Python statement sequence over a mutable state [S]: what was
    written before an exception is raised stays written. *)
Definition M (S A : Type) : Type := S -> result A * S.

Definition ret {S A} (a : A) : M S A := fun s => (Ok a, s).

Definition bind {S A B} (c : M S A) (k : A -> M S B) : M S B :=
  fun s => match c s with
           | (Ok a, s') => k a s'
           | (Raise e, s') => (Raise e, s')
           end.

Definition raise {S A} (e : exn) : M S A := fun s => (Raise e, s).

Definition get {S} : M S S := fun s => (Ok s, s).
Definition put {S} (s : S) : M S unit := fun _ => (Ok tt, s).
Definition modify {S} (f : S -> S) : M S unit := fun s => (Ok tt, f s).

(** [try: body  except Exception as e: handler(e)] *)
Definition try_except {S A} (body : M S A) (handler : exn -> M S A) : M S A :=
  fun s => match body s with
           | (Ok a, s') => (Ok a, s')
           | (Raise e, s') => handler e s'
           end.

Declare Scope py_scope.
Delimit Scope py_scope with py.
Notation "x <- c ;; k" := (bind c (fun x => k))
  (at level 100, c at next level, right associativity) : py_scope.
Notation "c ;;; k" := (bind c (fun _ => k))
  (at level 100, right associativity) : py_scope.

(** ** Tables of [db.py] *)

Record User : Type := mkUser {
  user_id : Z;
  username : string }.

Record Playlist : Type := mkPlaylist {
  playlist_id : Z;
  playlist_name : string;
  playlist_user_id : Z;
  image_id : option Z }.

Record Song : Type := mkSong {
  song_id : Z;
  title : string;
  artist : string;
  bpm : Z;
  link : string }.

Record Img : Type := mkImg {
  img_id : Z;
  img_link : string }.

(** An [Asset] object: every attribute is unset until [create] assigns
    it; [asset_id] is assigned by the insert. *)
Record Asset : Type := mkAsset {
  asset_id : option Z;
  base_url : option string;
  salt : option string;
  extension : option string;
  width : option Z;
  height : option Z;
  created_at : option Z }.

Record Db : Type := mkDb {
  users : list User;
  playlists : list Playlist;
  songs : list Song;
  images : list Img;
  assets : list Asset;
  association_table : list (Z * Z) }.

Definition empty_db : Db := mkDb [] [] [] [] [] [].

(** SQLite [INTEGER PRIMARY KEY] (the DDL carries no AUTOINCREMENT
    keyword): a new row takes one more than the largest rowid in use,
    1 in an empty table. *)
Definition next_rowid (ids : list Z) : Z := fold_right Z.max 0 ids + 1.

(** [Model.query.filter_by(id=...).first()] *)
Definition first_by_id {A} (key : A -> Z) (i : Z) (rows : list A) : option A :=
  find (fun r => key r =? i) rows.

Definition asset_key (a : Asset) : Z :=
  match asset_id a with Some i => i | None => 0 end.

Definition set_users (f : list User -> list User) (d : Db) : Db :=
  mkDb (f (users d)) (playlists d) (songs d) (images d) (assets d) (association_table d).
Definition set_playlists (f : list Playlist -> list Playlist) (d : Db) : Db :=
  mkDb (users d) (f (playlists d)) (songs d) (images d) (assets d) (association_table d).
Definition set_songs (f : list Song -> list Song) (d : Db) : Db :=
  mkDb (users d) (playlists d) (f (songs d)) (images d) (assets d) (association_table d).
Definition set_images (f : list Img -> list Img) (d : Db) : Db :=
  mkDb (users d) (playlists d) (songs d) (f (images d)) (assets d) (association_table d).
Definition set_assets (f : list Asset -> list Asset) (d : Db) : Db :=
  mkDb (users d) (playlists d) (songs d) (images d) (f (assets d)) (association_table d).
Definition set_association (f : list (Z * Z) -> list (Z * Z)) (d : Db) : Db :=
  mkDb (users d) (playlists d) (songs d) (images d) (assets d) (f (association_table d)).

(** ** Relationships declared by the models

    Each one is the lazy load the ORM issues when the attribute is read. *)

(** [Playlist.image]: many-to-one through the [image_id] foreign key. *)
Definition Playlist_image (d : Db) (p : Playlist) : option Img :=
  match image_id p with
  | Some i => first_by_id img_id i (images d)
  | None => None
  end.

(** [Playlist.user] *)
Definition Playlist_user (d : Db) (p : Playlist) : option User :=
  first_by_id user_id (playlist_user_id p) (users d).

(** [User.playlists] *)
Definition User_playlists (d : Db) (u : User) : list Playlist :=
  filter (fun p => playlist_user_id p =? user_id u) (playlists d).

(** [Img.playlist]: the other end of [Playlist.image], [uselist=False]. *)
Definition Img_playlist (d : Db) (i : Z) : option Playlist :=
  find (fun p => match image_id p with Some j => j =? i | None => false end)
       (playlists d).

(** The ORM returns each entity of a collection once. *)
Fixpoint unique (seen l : list Z) : list Z :=
  match l with
  | [] => []
  | x :: t =>
      if existsb (Z.eqb x) seen then unique seen t
      else x :: unique (x :: seen) t
  end.

Definition song_exists (d : Db) (sid : Z) : bool :=
  existsb (fun s => song_id s =? sid) (songs d).

(** [Playlist.songs], as song ids: the rows of the association table
    for this playlist, joined with the [song] table. *)
Definition Playlist_song_ids (d : Db) (pid : Z) : list Z :=
  unique []
    (filter (song_exists d)
       (map snd (filter (fun r => fst r =? pid) (association_table d)))).

Definition Playlist_songs (d : Db) (pid : Z) : list Song :=
  flat_map (fun sid => match first_by_id song_id sid (songs d) with
                       | Some s => [s]
                       | None => []
                       end)
           (Playlist_song_ids d pid).

(** ** Serializers *)

Definition Song_simple_serialize (s : Song) : json :=
  JObj [("id", JInt (song_id s)); ("title", JStr (title s));
        ("artist", JStr (artist s)); ("bpm", JInt (bpm s));
        ("link", JStr (link s))].

Definition Song_exists_serialize (s : Song) : json :=
  JObj [("title", JStr (title s)); ("artist", JStr (artist s));
        ("bpm", JInt (bpm s)); ("link", JStr (link s))].

Definition Img_simple_serialize (i : Img) : json :=
  JObj [("id", JInt (img_id i)); ("link", JStr (img_link i))].

Definition User_simple_serialize (u : User) : json :=
  JObj [("id", JInt (user_id u)); ("username", JStr (username u))].

Definition Playlist_no_image_serialize (p : Playlist) : json :=
  JObj [("id", JInt (playlist_id p)); ("playlist_name", JStr (playlist_name p))].

Definition Playlist_simple_serialize (d : Db) (p : Playlist) : json :=
  JObj [("id", JInt (playlist_id p)); ("playlist_name", JStr (playlist_name p));
        ("image", opt_json Img_simple_serialize (Playlist_image d p))].

(** [self.user.simple_serialize()] is an attribute access on [None]
    when the owning user row is gone. *)
Definition Playlist_serialize (d : Db) (p : Playlist) : result json :=
  match Playlist_user d p with
  | None => Raise AttributeError
  | Some u =>
      Ok (JObj [("id", JInt (playlist_id p));
                ("playlist_name", JStr (playlist_name p));
                ("image", opt_json Img_simple_serialize (Playlist_image d p));
                ("user", User_simple_serialize u);
                ("songs", JList (map Song_simple_serialize
                                     (Playlist_songs d (playlist_id p))))])
  end.

Definition User_serialize (d : Db) (u : User) : json :=
  JObj [("id", JInt (user_id u)); ("username", JStr (username u));
        ("playlists", JList (map (Playlist_simple_serialize d) (User_playlists d u)))].

(** [Img.serialize], given what [self.playlist] holds. *)
Definition Img_serialize (i : Img) (owner : option Playlist) : result json :=
  match owner with
  | None => Raise AttributeError
  | Some p =>
      Ok (JObj [("id", JInt (img_id i)); ("link", JStr (img_link i));
                ("playlist", Playlist_no_image_serialize p)])
  end.

(** [str(x)] inside an f-string: an unset attribute prints as [None]. *)
Definition py_str (o : option string) : string :=
  match o with Some s => s | None => "None" end.

(** The ["url"] entry of [Asset.serialize]. *)
Definition Asset_url (a : Asset) : string :=
  py_str (base_url a) ++ "/" ++ py_str (salt a) ++ "." ++ py_str (extension a).

(** ** The world outside the handlers *)

Record World : Type := mkWorld {
  db : Db;
  (** objects of the S3 bucket: name, and whether the public-read ACL is set *)
  bucket : list (string * bool);
  (** lines written by [print] *)
  stdout : list string;
  (** random characters drawn so far *)
  draws : nat;
  (** what [datetime.datetime.now()] reads *)
  clock : Z }.

Definition set_db (f : Db -> Db) (w : World) : World :=
  mkWorld (f (db w)) (bucket w) (stdout w) (draws w) (clock w).
Definition set_bucket (f : list (string * bool) -> list (string * bool)) (w : World) : World :=
  mkWorld (db w) (f (bucket w)) (stdout w) (draws w) (clock w).

Definition print (line : string) : M World unit :=
  fun w => (Ok tt, mkWorld (db w) (bucket w) (stdout w ++ [line]) (draws w) (clock w)).

Definition upload_step_eqb (a b : upload_step) : bool :=
  match a, b with
  | ImgSave, ImgSave | UploadFile, UploadFile
  | AclPut, AclPut | OsRemove, OsRemove => true
  | _, _ => false
  end.

(** What the flush of the session writes for a relationship collection
    is decided by the installed SQLAlchemy, not by [db.py].  When
    [playlist.songs.append(song)] ran on a collection that already
    held the song, release 1.4 writes nothing, since it inserts only
    for the objects that were not in the collection as loaded; release
    2 also writes the append left pending on the other side of the
    relationship, [Song.playlists], and so inserts a second row. *)
Inductive orm_flush : Type :=
| SkipsLoaded
| WritesPending.

(** The libraries and the environment [db.py] relies on.  A [None]
    stands for the library's own [None] result ([guess_type],
    [guess_extension]) or for the call raising ([b64decode],
    [Image_open]). *)
Record Env : Type := mkEnv {
  (** [os.environ.get("S3_BUCKET_NAME")] *)
  S3_BUCKET_NAME : option string;
  (** [mimetypes.guess_type(url)[0]] *)
  guess_type : string -> option string;
  (** [mimetypes.guess_extension(type)] on a MIME type *)
  guess_extension : string -> option string;
  (** [SystemRandom()._randbelow(n)] at the k-th draw *)
  randbelow : nat -> nat -> nat;
  randbelow_lt : forall k n, (0 < n)%nat -> (randbelow k n < n)%nat;
  (** [re.sub("^data:image/.+;base64,", "", s)] *)
  re_sub_data_url : string -> string;
  (** [base64.b64decode] *)
  b64decode : string -> option string;
  (** [Image.open(BytesIO(bytes))], as the pair (width, height) *)
  Image_open : string -> option (Z * Z);
  (** the step of [upload] that raises for a given file name, if any *)
  s3_fault : string -> option upload_step;
  (** the flush of the installed SQLAlchemy *)
  orm : orm_flush }.

Definition exn_str (e : exn) : string :=
  match e with
  | JSONDecodeError => "JSONDecodeError"
  | AttributeError => "AttributeError"
  | TypeError => "TypeError"
  | DecodeError => "binascii.Error"
  | UnidentifiedImageError => "UnidentifiedImageError"
  | IntegrityError => "IntegrityError"
  | OverflowError => "OverflowError"
  | StaleDataError => "StaleDataError"
  | UnmappedInstanceError => "UnmappedInstanceError"
  | IOError step => "upload step failed"
  | Exception_ msg => msg
  end.

(** ** The asset pipeline of [db.py] *)

Section AssetCreator.
Context (E : Env).
Local Open Scope py_scope.

Definition EXTENSIONS : list string := ["png"; "gif"; "jpg"; "jpeg"].

Definition S3_BASE_URL : string :=
  "https://" ++ py_str (S3_BUCKET_NAME E) ++ ".s3.us-east-1.amazonaws.com".

Definition ascii_uppercase : string := "ABCDEFGHIJKLMNOPQRSTUVWXYZ".
Definition digits : string := "0123456789".

(** [random.SystemRandom().choice(seq)] at draw [k]: [seq[_randbelow(len(seq))]] *)
Definition choice (k : nat) (seq : string) : ascii :=
  nth (randbelow E k (String.length seq)) (list_ascii_of_string seq) "?"%char.

(** ["".join(choice(ascii_uppercase + digits) for _ in range(16))],
    drawn in world [w] *)
Definition salt_of (w : World) : string :=
  string_of_list_ascii
    (map (fun i => choice (draws w + i) (ascii_uppercase ++ digits)) (seq 0 16)).

Definition random_salt : M World string :=
  fun w => (Ok (salt_of w),
            mkWorld (db w) (bucket w) (stdout w) (draws w + 16) (clock w)).

(** [s[1:]] *)
Definition drop_first (s : string) : string :=
  match s with
  | EmptyString => EmptyString
  | String _ rest => rest
  end.

(** One outside call of [upload]: it raises when the environment says
    this step fails for this file, and has its effect otherwise. *)
Definition outside (step : upload_step) (img_filename : string)
    (effect : World -> World) : M World unit :=
  fun w => match s3_fault E img_filename with
           | Some failing =>
               if upload_step_eqb failing step then (Raise (IOError step), w)
               else (Ok tt, effect w)
           | None => (Ok tt, effect w)
           end.

Definition put_object (name : string) (public : bool)
    (objs : list (string * bool)) : list (string * bool) :=
  filter (fun o => negb (String.eqb (fst o) name)) objs ++ [(name, public)].

(** [Asset.upload] *)
Definition upload (img_filename : string) : M World unit :=
  try_except
    (outside ImgSave img_filename (fun w => w) ;;;
     outside UploadFile img_filename (set_bucket (put_object img_filename false)) ;;;
     outside AclPut img_filename (set_bucket (put_object img_filename true)) ;;;
     outside OsRemove img_filename (fun w => w))
    (fun e => print ("Error when uploading image: " ++ exn_str e)).

(** Methods run over the object and the world. *)
Definition on_world {A} (c : M World A) : M (Asset * World) A :=
  fun st => match c (snd st) with (r, w') => (r, (fst st, w')) end.

Definition on_self (f : Asset -> Asset) : M (Asset * World) unit :=
  fun st => (Ok tt, (f (fst st), snd st)).

Definition from_option {S A} (o : option A) (e : exn) : M S A :=
  match o with Some a => ret a | None => raise e end.

(** [Asset.create] *)
Definition create (image_data : string) : M (Asset * World) unit :=
  try_except
    (mime <- from_option (guess_type E image_data) AttributeError ;;
     dot_ext <- from_option (guess_extension E mime) TypeError ;;
     let ext := drop_first dot_ext in
     (if negb (existsb (String.eqb ext) EXTENSIONS)
      then raise (Exception_ ("Extension " ++ ext ++ " is not valid."))
      else ret tt) ;;;
     salt_ <- on_world random_salt ;;
     let img_str := re_sub_data_url E image_data in
     img_data <- from_option (b64decode E img_str) DecodeError ;;
     img <- from_option (Image_open E img_data) UnidentifiedImageError ;;
     now <- on_world (fun w => (Ok (clock w), w)) ;;
     on_self (fun self =>
       mkAsset (asset_id self) (Some S3_BASE_URL) (Some salt_) (Some ext)
               (Some (fst img)) (Some (snd img)) (Some now)) ;;;
     st <- get ;;
     let img_filename :=
       py_str (salt (fst st)) ++ "." ++ py_str (extension (fst st)) in
     on_world (upload img_filename))
    (fun e => on_world (print ("Error when creating image: " ++ exn_str e))).

Definition blank_asset : Asset := mkAsset None None None None None None None.

(** [Asset(image_data=...)]: [__init__] runs [create] on the new object. *)
Definition Asset_init (image_data : string) : M World Asset :=
  fun w => match create image_data (blank_asset, w) with
           | (Ok _, (self, w')) => (Ok self, w')
           | (Raise e, (self, w')) => (Raise e, w')
           end.

End AssetCreator.

(** ** Session operations

    Every handler commits right after it changes the session, so a
    change is modelled at its commit.  An exception that leaves a
    handler discards whatever the session held uncommitted. *)

Local Open Scope py_scope.

Definition query {A} (table : Db -> list A) : M World (list A) :=
  fun w => (Ok (table (db w)), w).

Definition query_first {A} (table : Db -> list A) (key : A -> Z) (i : Z)
  : M World (option A) :=
  fun w => (Ok (first_by_id key i (table (db w))), w).

(** [db.session.add(user); db.session.commit()] *)
Definition add_user (name : string) : M World User :=
  fun w =>
    let u := mkUser (next_rowid (map user_id (users (db w)))) name in
    (Ok u, set_db (set_users (fun rows => (rows ++ [u])%list)) w).

(** What SQLite stores in an INTEGER column: a signed 64-bit integer. *)
Definition sqlite_integer (z : Z) : bool := (- 2 ^ 63 <=? z) && (z <? 2 ^ 63).

(** [db.session.add(new_song); db.session.commit()]: the driver refuses
    a Python int that does not fit an INTEGER column. *)
Definition add_song (t a : string) (b : Z) (l : string) : M World Song :=
  fun w =>
    if sqlite_integer b then
      let s := mkSong (next_rowid (map song_id (songs (db w)))) t a b l in
      (Ok s, set_db (set_songs (fun rows => (rows ++ [s])%list)) w)
    else (Raise OverflowError, w).

Definition add_playlist (name : string) (uid : Z) : M World Playlist :=
  fun w =>
    let p := mkPlaylist (next_rowid (map playlist_id (playlists (db w)))) name uid None in
    (Ok p, set_db (set_playlists (fun rows => (rows ++ [p])%list)) w).

Definition is_some {A} (o : option A) : bool :=
  match o with Some _ => true | None => false end.

(** Every column of [Asset] but the key is [nullable=False]. *)
Definition Asset_not_null (a : Asset) : bool :=
  is_some (base_url a) && is_some (salt a) && is_some (extension a)
  && is_some (width a) && is_some (height a) && is_some (created_at a).

(** [db.session.add(asset); db.session.commit()]: the insert of an
    object with an unset attribute fails. *)
Definition add_asset (a : Asset) : M World Asset :=
  fun w =>
    if Asset_not_null a
    then
      let row := mkAsset (Some (next_rowid (map asset_key (assets (db w)))))
                         (base_url a) (salt a) (extension a)
                         (width a) (height a) (created_at a) in
      (Ok row, set_db (set_assets (fun rows => (rows ++ [row])%list)) w)
    else (Raise IntegrityError, w).

Definition set_image_id (pid : Z) (v : option Z) (rows : list Playlist) : list Playlist :=
  map (fun p => if playlist_id p =? pid
                then mkPlaylist (playlist_id p) (playlist_name p) (playlist_user_id p) v
                else p) rows.

(** [image = Img(link=..., playlist_id=...); db.session.add(image);
    db.session.commit()].  [Img.__init__] looks the playlist up and
    assigns [self.playlist], which sets the playlist's [image] through
    [back_populates]; the flush inserts the image and writes its id
    into the playlist's [image_id].  The image the playlist pointed to
    before has lost its only parent: [cascade="all, delete-orphan"]
    with [single_parent] on [Playlist.image] deletes its row in the
    same flush, after the insert. *)
Definition add_image (lnk : string) (pid : Z) : M World Img :=
  fun w =>
    let i := mkImg (next_rowid (map img_id (images (db w)))) lnk in
    let owner := first_by_id playlist_id pid (playlists (db w)) in
    let orphan := match owner with
                  | Some p => Playlist_image (db w) p
                  | None => None
                  end in
    (Ok i,
     set_db (fun d =>
       set_playlists (match owner with
                      | Some _ => set_image_id pid (Some (img_id i))
                      | None => fun rows => rows
                      end)
         (set_images
            (fun rows =>
               (match orphan with
                | Some old => filter (fun r => negb (img_id r =? img_id old)) rows
                | None => rows
                end ++ [i])%list) d)) w).

(** The flush of a deleted [Img]: its row goes, and the playlist held
    by [Img.playlist] (no delete cascade on that side) gets a null
    [image_id]. *)
Definition delete_image_row (i : Z) (child : option Playlist) (d : Db) : Db :=
  let d' := set_images (filter (fun r => negb (img_id r =? i))) d in
  match child with
  | Some p => set_playlists (set_image_id (playlist_id p) None) d'
  | None => d'
  end.

Definition delete_asset_row (i : Z) (d : Db) : Db :=
  set_assets (filter (fun r => negb (asset_key r =? i))) d.

Definition mem (x : Z) (l : list Z) : bool := existsb (Z.eqb x) l.

(** [DELETE FROM playlist_song_association WHERE playlist_id = ? AND
    song_id = ?], once per song of [sids] *)
Definition delete_pairs (pid : Z) (sids : list Z) (d : Db) : Db :=
  set_association
    (filter (fun r => negb ((fst r =? pid) && mem (snd r) sids))) d.

(** the rows those statements match *)
Definition matched_pairs (pid : Z) (sids : list Z) (d : Db) : list (Z * Z) :=
  filter (fun r => (fst r =? pid) && mem (snd r) sids) (association_table d).

(** The flush of [Playlist.songs] after the handler changed the list in
    memory.  The unit of work compares the list with the one it loaded:
    it deletes the rows of the songs no longer in it, and raises
    [StaleDataError] when the rows matched are not one per song; it
    inserts one row per song that was not in the loaded list and,
    under [WritesPending], one row for an append pending on
    [Song.playlists] that the first comparison did not cover. *)
Definition flush_songs (E : Env) (pid : Z) (original current pending : list Z) (d : Db)
  : result Db :=
  let added := filter (fun o => negb (mem o original)) current in
  let deleted := filter (fun o => negb (mem o current)) original in
  let inserted :=
    match orm E with
    | SkipsLoaded => added
    | WritesPending => (added ++ filter (fun o => negb (mem o added)) pending)%list
    end in
  if Nat.eqb (List.length (matched_pairs pid deleted d)) (List.length deleted)
  then Ok (set_association (fun rows => (rows ++ map (pair pid) inserted)%list)
             (delete_pairs pid deleted d))
  else Raise StaleDataError.

(** [list.remove(x)]: the first occurrence goes. *)
Fixpoint list_remove (x : Z) (l : list Z) : list Z :=
  match l with
  | [] => []
  | y :: t => if y =? x then t else y :: list_remove x t
  end.

(** [db.session.delete(playlist); db.session.commit()]: the association
    rows of the playlist go with it, and [cascade="all, delete-orphan"]
    on [Playlist.image] deletes its image.  Nothing relates [Asset] to
    either. *)
Definition delete_playlist_row (p : Playlist) (d : Db) : Db :=
  let d1 := delete_pairs (playlist_id p) (Playlist_song_ids d (playlist_id p)) d in
  let d2 := set_playlists (filter (fun r => negb (playlist_id r =? playlist_id p))) d1 in
  match Playlist_image d p with
  | Some i => delete_image_row (img_id i) (Img_playlist d (img_id i)) d2
  | None => d2
  end.

(** ** Requests and responses of [app.py] *)

Definition response : Type := (json * Z)%type.

Definition success_response (data : json) (code : Z) : response := (data, code).

Definition failure_response (message : string) (code : Z) : response :=
  (JObj [("error", JStr message)], code).

(** [request.data]: not JSON at all, a JSON value that is not an
    object, or an object.  An object is read through [body.get], which
    gives [None] for a key that is absent or null; its record holds one
    field per key the handler reads, typed as the handler's docstring
    types it. *)
Inductive payload (B : Type) : Type :=
| NotJson
| NotObject
| Object (body : B).
Arguments NotJson {B}.
Arguments NotObject {B}.
Arguments Object {B} body.

(** [body = json.loads(request.data)] followed by the first [body.get]. *)
Definition json_loads {B} (data : payload B) : M World B :=
  match data with
  | NotJson => raise JSONDecodeError
  | NotObject => raise AttributeError
  | Object b => ret b
  end.

Record UserBody : Type := mkUserBody { b_username : option string }.

Record SongBody : Type := mkSongBody {
  b_title : option string;
  b_artist : option string;
  b_bpm : option Z;
  b_link : option string }.

Record BpmBody : Type := mkBpmBody {
  b_lower_bpm : option Z;
  b_upper_bpm : option Z }.

Record PlaylistBody : Type := mkPlaylistBody { b_playlist_name : option string }.

Record ImageBody : Type := mkImageBody { b_image_data : option string }.

(** [x in range(start, stop)] for integers *)
Definition in_range (x start stop : Z) : bool := (start <=? x) && (x <? stop).

(** The result of a method that may raise, inside a handler. *)
Definition lift_result {S A} (r : result A) : M S A :=
  match r with Ok a => ret a | Raise e => raise e end.

(** ** Handlers *)

Section Handlers.
Context (E : Env).

Definition create_new_user (data : payload UserBody) : M World response :=
  body <- json_loads data ;;
  match b_username body with
  | None => ret (failure_response "Please input a username" 400)
  | Some name =>
      user <- add_user name ;;
      w <- get ;;
      ret (success_response (User_serialize (db w) user) 200)
  end.

Definition add_song_to_database (data : payload SongBody) : M World response :=
  body <- json_loads data ;;
  match b_title body, b_artist body, b_bpm body, b_link body with
  | Some t, Some a, Some b, Some l =>
      (* the id of an object not yet inserted is unset; no serializer
         used before the insert reads it *)
      let new_song := mkSong 0 t a b l in
      all_songs <- query songs ;;
      if py_in (Song_exists_serialize new_song) (map Song_exists_serialize all_songs)
      then ret (failure_response "Song already exists" 401)
      else
        (inserted <- add_song t a b l ;;
         ret (success_response (Song_simple_serialize inserted) 201))
  | _, _, _, _ => ret (failure_response "Please input all requested data" 400)
  end.

Definition get_songs_bpm (data : payload BpmBody) : M World response :=
  body <- json_loads data ;;
  match b_lower_bpm body, b_upper_bpm body with
  | Some lower_bpm, Some upper_bpm =>
      rows <- query songs ;;
      let all_songs := map Song_simple_serialize rows in
      let filtered_songs :=
        filter (fun song => match subscript song "bpm" with
                            | JInt b => in_range b lower_bpm (upper_bpm + 1)
                            | _ => false
                            end) all_songs in
      match filtered_songs with
      | [] => ret (failure_response "No songs in this range were found" 400)
      | _ => ret (success_response (JList filtered_songs) 200)
      end
  | _, _ => ret (failure_response "Please input a bpm range" 400)
  end.

Definition get_user_playlists (user_id_ : Z) : M World response :=
  user <- query_first users user_id user_id_ ;;
  match user with
  | None => ret (failure_response "User not found" 404)
  | Some _ =>
      w <- get ;;
      let found := filter (fun p => playlist_user_id p =? user_id_) (playlists (db w)) in
      ret (success_response
             (JObj [("playlists", JList (map (Playlist_simple_serialize (db w)) found))]) 200)
  end.

Definition create_new_playlist (user_id_ : Z) (data : payload PlaylistBody)
  : M World response :=
  user <- query_first users user_id user_id_ ;;
  match user with
  | None => ret (failure_response "User not found" 404)
  | Some _ =>
      body <- json_loads data ;;
      match b_playlist_name body with
      | None => ret (failure_response "Please input a playlist name" 400)
      | Some name =>
          new_playlist <- add_playlist name user_id_ ;;
          w <- get ;;
          ret (success_response (Playlist_simple_serialize (db w) new_playlist) 200)
      end
  end.

Definition get_specific_playlist (playlist_id_ : Z) : M World response :=
  playlist <- query_first playlists playlist_id playlist_id_ ;;
  match playlist with
  | None => ret (failure_response "Playlist not found" 404)
  | Some p =>
      w <- get ;;
      data <- lift_result (Playlist_serialize (db w) p) ;;
      ret (success_response data 200)
  end.

Definition delete_playlist (playlist_id_ : Z) : M World response :=
  playlist <- query_first playlists playlist_id playlist_id_ ;;
  match playlist with
  | None => ret (failure_response "Playlist not found" 404)
  | Some p =>
      w <- get ;;
      deleted_playlist <- lift_result (Playlist_serialize (db w) p) ;;
      modify (set_db (delete_playlist_row p)) ;;;
      ret (success_response deleted_playlist 200)
  end.

Definition add_song_to_playlist (playlist_id_ song_id_ : Z) : M World response :=
  playlist <- query_first playlists playlist_id playlist_id_ ;;
  match playlist with
  | None => ret (failure_response "Playlist not found" 404)
  | Some p =>
      song <- query_first songs song_id song_id_ ;;
      match song with
      | None => ret (failure_response "Song not found" 404)
      | Some s =>
          w <- get ;;
          let loaded := Playlist_song_ids (db w) (playlist_id p) in
          (* playlist.songs.append(song) *)
          let appended := (loaded ++ [song_id s])%list in
          (* db.session.commit() *)
          rows <- lift_result (flush_songs E (playlist_id p) loaded appended
                                 [song_id s] (db w)) ;;
          put (set_db (fun _ => rows) w) ;;;
          ret (success_response (Song_simple_serialize s) 200)
      end
  end.

Definition remove_song_from_playlist (playlist_id_ song_id_ : Z) : M World response :=
  playlist <- query_first playlists playlist_id playlist_id_ ;;
  match playlist with
  | None => ret (failure_response "Playlist not found" 404)
  | Some p =>
      song <- query_first songs song_id song_id_ ;;
      match song with
      | None => ret (failure_response "Song not found" 404)
      | Some s =>
          w <- get ;;
          let loaded := Playlist_song_ids (db w) (playlist_id p) in
          (* playlist.songs.index(song) raises ValueError on a non-member *)
          if negb (mem (song_id s) loaded)
          then ret (failure_response "Song not in playlist" 400)
          else
            (* playlist.songs.remove(song); db.session.commit() *)
            (rows <- lift_result (flush_songs E (playlist_id p) loaded
                                    (list_remove (song_id s) loaded) [] (db w)) ;;
             put (set_db (fun _ => rows) w) ;;;
             ret (success_response (Song_simple_serialize s) 200))
      end
  end.

Definition get_song_from_playlist (song_id_ : Z) : M World response :=
  song <- query_first songs song_id song_id_ ;;
  match song with
  | None => ret (failure_response "Song not found" 404)
  | Some s => ret (success_response (Song_simple_serialize s) 200)
  end.

Definition upload_playlist_image (playlist_id_ : Z) (data : payload ImageBody)
  : M World response :=
  playlist <- query_first playlists playlist_id playlist_id_ ;;
  match playlist with
  | None => ret (failure_response "Playlist not found" 404)
  | Some _ =>
      body <- json_loads data ;;
      match b_image_data body with
      | None => ret (failure_response "No base64 image found." 404)
      | Some image_data =>
          asset <- Asset_init E image_data ;;
          asset <- add_asset asset ;;
          image <- add_image (Asset_url asset) playlist_id_ ;;
          w <- get ;;
          data <- lift_result (Img_serialize image (Img_playlist (db w) (img_id image))) ;;
          ret (success_response data 201)
      end
  end.

Definition remove_playlist_image (playlist_id_ : Z) : M World response :=
  playlist <- query_first playlists playlist_id playlist_id_ ;;
  match playlist with
  | None => ret (failure_response "Playlist not found" 404)
  | Some p =>
      w <- get ;;
      (* remove from Img *)
      let image := match image_id p with
                   | Some i => first_by_id img_id i (images (db w))
                   | None => None
                   end in
      (* remove from Asset *)
      let asset := match image_id p with
                   | Some i => first_by_id asset_key i (assets (db w))
                   | None => None
                   end in
      match image with
      | None => ret (failure_response "There is no image associated with this playlist" 404)
      | Some img =>
          match asset with
          | None => raise UnmappedInstanceError  (* db.session.delete(None) *)
          | Some a =>
              let owner := Img_playlist (db w) (img_id img) in
              modify (set_db (fun d =>
                delete_asset_row (asset_key a) (delete_image_row (img_id img) owner d))) ;;;
              data <- lift_result (Img_serialize img owner) ;;
              ret (success_response data 200)
          end
      end
  end.

End Handlers.

(** ** Routing *)

Inductive request : Type :=
| POST_users (data : payload UserBody)
| POST_songs_add (data : payload SongBody)
| GET_songs_search (data : payload BpmBody)
| GET_users_playlists (user_id_ : Z)
| POST_users_playlists (user_id_ : Z) (data : payload PlaylistBody)
| GET_playlists (playlist_id_ : Z)
| DELETE_playlists (playlist_id_ : Z)
| POST_playlists_songs (playlist_id_ song_id_ : Z)
| DELETE_playlists_songs (playlist_id_ song_id_ : Z)
| GET_songs (song_id_ : Z)
| POST_playlists_images (playlist_id_ : Z) (data : payload ImageBody)
| DELETE_playlists_images (playlist_id_ : Z).

(** The [@app.route] table of the application routes. *)
Definition handle (E : Env) (r : request) : M World response :=
  match r with
  | POST_users data => create_new_user data
  | POST_songs_add data => add_song_to_database data
  | GET_songs_search data => get_songs_bpm data
  | GET_users_playlists u => get_user_playlists u
  | POST_users_playlists u data => create_new_playlist u data
  | GET_playlists p => get_specific_playlist p
  | DELETE_playlists p => delete_playlist p
  | POST_playlists_songs p s => add_song_to_playlist E p s
  | DELETE_playlists_songs p s => remove_song_from_playlist E p s
  | GET_songs s => get_song_from_playlist s
  | POST_playlists_images p data => upload_playlist_image E p data
  | DELETE_playlists_images p => remove_playlist_image p
  end.

(** A sequence of requests served one after the other. *)
Definition serve (E : Env) (rs : list request) (w : World) : World :=
  fold_left (fun w r => snd (handle E r w)) rs w.

Definition empty_world : World := mkWorld empty_db [] [] 0 0.

(** ** A concrete environment, for running the handlers *)

Module Demo.

Fixpoint until_char (c : ascii) (s : string) : string :=
  match s with
  | EmptyString => EmptyString
  | String a rest => if Ascii.eqb a c then EmptyString else String a (until_char c rest)
  end.

Fixpoint after_char (c : ascii) (s : string) : string :=
  match s with
  | EmptyString => EmptyString
  | String a rest => if Ascii.eqb a c then rest else after_char c rest
  end.

(** the MIME type of a data URL, nothing for any other string *)
Definition guess_type (s : string) : option string :=
  if String.prefix "data:" s
  then Some (until_char ";" (after_char ":" s))
  else None.

Definition guess_extension (mime : string) : option string :=
  if String.eqb mime "image/png" then Some ".png"
  else if String.eqb mime "image/gif" then Some ".gif"
  else if String.eqb mime "image/jpeg" then Some ".jpg"
  else if String.eqb mime "image/bmp" then Some ".bmp"
  else None.

Definition re_sub_data_url (s : string) : string :=
  if String.prefix "data:image/" s then after_char "," s else s.

Definition b64decode (s : string) : option string :=
  if String.eqb s "!" then None else Some s.

Definition Image_open (bytes : string) : option (Z * Z) :=
  if String.eqb bytes "" then None else Some (640, 480).

Definition mod_lt (k n : nat) (H : (0 < n)%nat) : (k mod n < n)%nat :=
  Nat.mod_upper_bound k n (proj2 (Nat.neq_0_lt_0 n) H).

(** every call to the bucket succeeds; the flush of SQLAlchemy 2 *)
Definition env : Env :=
  mkEnv (Some "thumbs") guess_type guess_extension
        (fun k n => (k mod n)%nat) mod_lt
        re_sub_data_url b64decode Image_open (fun _ => None) WritesPending.

(** the transfer to the bucket fails *)
Definition env_offline : Env :=
  mkEnv (Some "thumbs") guess_type guess_extension
        (fun k n => (k mod n)%nat) mod_lt
        re_sub_data_url b64decode Image_open (fun _ => Some UploadFile) WritesPending.

(** the flush of SQLAlchemy 1.4 *)
Definition env_1_4 : Env :=
  mkEnv (Some "thumbs") guess_type guess_extension
        (fun k n => (k mod n)%nat) mod_lt
        re_sub_data_url b64decode Image_open (fun _ => None) SkipsLoaded.

Definition png : string := "data:image/png;base64,iVBORw0KGgo=".
Definition bmp : string := "data:image/bmp;base64,Qk0=".

Definition alice := POST_users (Object (mkUserBody (Some "alice"))).
Definition mix (u : Z) := POST_users_playlists u (Object (mkPlaylistBody (Some "mix"))).
Definition song_a :=
  POST_songs_add (Object (mkSongBody (Some "A") (Some "B") (Some 120) (Some "http://x"))).
Definition thumbnail (p : Z) (data : string) :=
  POST_playlists_images p (Object (mkImageBody (Some data))).

End Demo.

(** ** Vocabulary of the properties *)

(** all four fields of a stored song equal the given ones *)
Definition same_song (t a : string) (b : Z) (l : string) (s : Song) : bool :=
  String.eqb t (title s) && String.eqb a (artist s) && (b =? bpm s) && String.eqb l (link s).

Definition stored (t a : string) (b : Z) (l : string) (d : Db) : bool :=
  existsb (same_song t a b l) (songs d).

Definition song_request (t a : string) (b : Z) (l : string) : payload SongBody :=
  Object (mkSongBody (Some t) (Some a) (Some b) (Some l)).

Definition alphabet : list ascii := list_ascii_of_string (ascii_uppercase ++ digits).

(** The extension [create] derives, when the MIME lookups give one. *)
Definition guessed_extension (E : Env) (image_data : string) : option string :=
  match guess_type E image_data with
  | Some mime =>
      match guess_extension E mime with
      | Some dot_ext => Some (drop_first dot_ext)
      | None => None
      end
  | None => None
  end.

(** the image [create] decodes, when both decoding steps succeed *)
Definition decoded (E : Env) (image_data : string) : option (Z * Z) :=
  match b64decode E (re_sub_data_url E image_data) with
  | Some bytes => Image_open E bytes
  | None => None
  end.

Definition supported (ext : string) : bool := existsb (String.eqb ext) EXTENSIONS.

(** the extension and the image [create] goes on with, when the type
    is found and supported and the payload decodes *)
Definition usable (E : Env) (image_data : string) : option (string * (Z * Z)) :=
  match guessed_extension E image_data with
  | Some ext =>
      if supported ext
      then match decoded E image_data with
           | Some img => Some (ext, img)
           | None => None
           end
      else None
  | None => None
  end.


(** the rows of the association table that pair [pid] with [sid] *)
Definition count_pair (pid sid : Z) (rows : list (Z * Z)) : nat :=
  List.length (filter (fun r => (fst r =? pid) && (snd r =? sid)) rows).





(** a database with its association table replaced *)
Definition with_pairs (d : Db) (rows : list (Z * Z)) : Db :=
  mkDb (users d) (playlists d) (songs d) (images d) (assets d) rows.

(** what the flush appends for [playlist.songs.append(song)] *)
Definition appended_pairs (E : Env) (pid sid : Z) (loaded : list Z) : list (Z * Z) :=
  if mem sid loaded
  then match orm E with
       | SkipsLoaded => []
       | WritesPending => [(pid, sid)]
       end
  else [(pid, sid)].

(** ** Testing routes that list a table *)

(** [[f(x) for x in xs]] where [f] may raise: the first exception leaves
    the comprehension. *)
Fixpoint comprehension {A B} (f : A -> result B) (xs : list A) : result (list B) :=
  match xs with
  | [] => Ok []
  | x :: rest =>
      match f x with
      | Raise e => Raise e
      | Ok y =>
          match comprehension f rest with
          | Raise e => Raise e
          | Ok ys => Ok (y :: ys)
          end
      end
  end.

Definition get_all_users : M World response :=
  rows <- query users ;;
  w <- get ;;
  ret (success_response
         (JObj [("users", JList (map (User_serialize (db w)) rows))]) 200).

Definition get_all_songs : M World response :=
  rows <- query songs ;;
  ret (success_response
         (JObj [("songs", JList (map Song_simple_serialize rows))]) 200).

Definition get_all_playlists : M World response :=
  rows <- query playlists ;;
  w <- get ;;
  serialized <- lift_result (comprehension (Playlist_serialize (db w)) rows) ;;
  ret (success_response (JObj [("playlists", JList serialized)]) 200).

Definition get_all_images : M World response :=
  rows <- query images ;;
  ret (success_response
         (JObj [("images", JList (map Img_simple_serialize rows))]) 200).

(** ** Consistency of the stored rows *)

(** primary keys are not repeated *)
Definition keys_unique (d : Db) : Prop :=
  NoDup (map user_id (users d)) /\
  NoDup (map playlist_id (playlists d)) /\
  NoDup (map song_id (songs d)) /\
  NoDup (map img_id (images d)) /\
  NoDup (map asset_key (assets d)).

(** foreign keys point at rows that exist and an image belongs to one
    playlist *)
Definition references_hold (d : Db) : Prop :=
  (forall p, In p (playlists d) ->
             first_by_id user_id (playlist_user_id p) (users d) <> None) /\
  (forall p i, In p (playlists d) -> image_id p = Some i ->
               first_by_id img_id i (images d) <> None) /\
  (forall p q i, In p (playlists d) -> In q (playlists d) ->
                 image_id p = Some i -> image_id q = Some i ->
                 playlist_id p = playlist_id q) /\
  (forall pid sid, In (pid, sid) (association_table d) ->
                   first_by_id playlist_id pid (playlists d) <> None /\
                   song_exists d sid = true).

Definition consistent (d : Db) : Prop := keys_unique d /\ references_hold d.

(** a playlist row with its [image_id] overwritten *)
Definition with_image (v : option Z) (p : Playlist) : Playlist :=
  mkPlaylist (playlist_id p) (playlist_name p) (playlist_user_id p) v.

(** [references_hold] with the lookups read as membership of key lists *)
Definition references_listed (d : Db) : Prop :=
  (forall p, In p (playlists d) -> In (playlist_user_id p) (map user_id (users d))) /\
  (forall p i, In p (playlists d) -> image_id p = Some i ->
               In i (map img_id (images d))) /\
  (forall p q i, In p (playlists d) -> In q (playlists d) ->
                 image_id p = Some i -> image_id q = Some i ->
                 playlist_id p = playlist_id q) /\
  (forall pid sid, In (pid, sid) (association_table d) ->
                   In pid (map playlist_id (playlists d)) /\
                   In sid (map song_id (songs d))).

Definition sound (d : Db) : Prop := keys_unique d /\ references_listed d.

(** * Properties *)

(** ** Tempo search *)

Lemma in_range_inclusive (x lo hi : Z) :
  in_range x lo (hi + 1) = (lo <=? x) && (x <=? hi).
Proof.
  unfold in_range. f_equal.
  destruct (Z.ltb_spec x (hi + 1)), (Z.leb_spec x hi); auto; lia.
Qed.

Lemma map_nil_inv {A B} (f : A -> B) (l : list A) : map f l = [] -> l = [].
Proof. destruct l; simpl; congruence. Qed.

(** C3: with both bounds present, the tempo search answers with exactly
    the stored songs whose bpm lies in the inclusive range, in table
    order, and with the 400 failure when there is none; it changes
    nothing. *)
Theorem get_songs_bpm_inclusive (w : World) (lo hi : Z) :
  let hits := filter (fun s => (lo <=? bpm s) && (bpm s <=? hi)) (songs (db w)) in
  get_songs_bpm (Object (mkBpmBody (Some lo) (Some hi))) w =
    (Ok (match hits with
         | [] => failure_response "No songs in this range were found" 400
         | _ => success_response (JList (map Song_simple_serialize hits)) 200
         end), w)
  /\ (forall s, In s hits <-> In s (songs (db w)) /\ lo <= bpm s <= hi).
Proof.
  intros hits. split.
  - unfold get_songs_bpm, bind, json_loads, ret, query.
    cbn [b_lower_bpm b_upper_bpm].
    rewrite filter_map_swap.
    rewrite (filter_ext _ (fun s => (lo <=? bpm s) && (bpm s <=? hi)))
      by (intros s; apply in_range_inclusive).
    fold hits. destruct hits; reflexivity.
  - intros s. unfold hits. rewrite filter_In, andb_true_iff, !Z.leb_le. tauto.
Qed.

(** ** Song creation *)


Lemma exists_serialize_eqb i t a b l s :
  json_eqb (Song_exists_serialize (mkSong i t a b l)) (Song_exists_serialize s)
  = same_song t a b l s.
Proof.
  unfold same_song. simpl. rewrite !andb_true_r, !andb_assoc. reflexivity.
Qed.

Lemma py_in_exists_serialize i t a b l rows :
  py_in (Song_exists_serialize (mkSong i t a b l)) (map Song_exists_serialize rows)
  = existsb (same_song t a b l) rows.
Proof.
  unfold py_in. induction rows as [|s rows IH]; [reflexivity|].
  cbn [map existsb]. rewrite exists_serialize_eqb, IH. reflexivity.
Qed.

Lemma add_song_to_database_eq (w : World) t a b l :
  add_song_to_database (song_request t a b l) w =
    if stored t a b l (db w)
    then (Ok (failure_response "Song already exists" 401), w)
    else if sqlite_integer b
    then
      let s := mkSong (next_rowid (map song_id (songs (db w)))) t a b l in
      (Ok (success_response (Song_simple_serialize s) 201),
       set_db (set_songs (fun rows => (rows ++ [s])%list)) w)
    else (Raise OverflowError, w).
Proof.
  unfold add_song_to_database, song_request, bind, json_loads, ret, query, stored, add_song.
  cbn [b_title b_artist b_bpm b_link].
  rewrite py_in_exists_serialize.
  destruct (existsb _ _); [reflexivity|].
  destruct (sqlite_integer b); reflexivity.
Qed.

Lemma stored_after_insert t a b l t' a' b' l' i (d : Db) :
  stored t a b l (set_songs (fun rows => (rows ++ [mkSong i t' a' b' l'])%list) d)
  = stored t a b l d || same_song t a b l (mkSong i t' a' b' l').
Proof.
  unfold stored. simpl. rewrite existsb_app. simpl. rewrite orb_false_r. reflexivity.
Qed.




(** ** Playlist membership *)

Lemma first_by_id_some {A} (key : A -> Z) i rows r :
  first_by_id key i rows = Some r -> key r = i /\ In r rows.
Proof.
  unfold first_by_id. intros H. apply find_some in H.
  destruct H as [Hin Hk]. apply Z.eqb_eq in Hk. auto.
Qed.

Lemma mem_spec x l : mem x l = true <-> In x l.
Proof.
  unfold mem. rewrite existsb_exists. split.
  - intros [y [Hin Hy]]. apply Z.eqb_eq in Hy. subst. exact Hin.
  - intros H. exists x. split; [exact H | apply Z.eqb_refl].
Qed.

Lemma mem_false x l : mem x l = false <-> ~ In x l.
Proof.
  rewrite <- mem_spec. destruct (mem x l); split; intros; congruence.
Qed.

Lemma unique_In seen l x : In x (unique seen l) <-> In x l /\ ~ In x seen.
Proof.
  revert seen. induction l as [|y t IH]; intros seen; simpl; [tauto|].
  fold (mem y seen). destruct (mem y seen) eqn:Hm.
  - apply mem_spec in Hm. rewrite IH. split.
    + tauto.
    + intros [[->|H] Hs]; [contradiction | tauto].
  - apply mem_false in Hm. simpl. rewrite IH. simpl. split.
    + intros [->|[H Hs]]; [tauto|]. split; [tauto|]. intros Hx. apply Hs. tauto.
    + intros [[->|H] Hs]; [tauto|].
      destruct (Z.eq_dec y x); [tauto|]. right. split; [exact H|]. intros [?|?]; tauto.
Qed.

Lemma unique_snoc seen l x :
  unique seen (l ++ [x]) =
  (unique seen l ++ if mem x seen || mem x l then [] else [x])%list.
Proof.
  revert seen. induction l as [|y t IH]; intros seen; simpl.
  - fold (mem x seen). rewrite orb_false_r. destruct (mem x seen); reflexivity.
  - fold (mem y seen). destruct (mem y seen) eqn:Hm.
    + rewrite IH. f_equal.
      destruct (Z.eqb_spec x y) as [->|Hne]; simpl.
      * rewrite Hm. reflexivity.
      * reflexivity.
    + simpl. rewrite IH. do 2 f_equal. unfold mem. simpl.
      destruct (x =? y), (existsb (Z.eqb x) seen), (existsb (Z.eqb x) t); reflexivity.
Qed.

Lemma first_by_id_exists d sid s :
  first_by_id song_id sid (songs d) = Some s -> song_exists d sid = true.
Proof.
  intros H. apply first_by_id_some in H. destruct H as [Hk Hin].
  unfold song_exists. apply existsb_exists. exists s. split; [exact Hin|].
  apply Z.eqb_eq. exact Hk.
Qed.

(** A song is in [playlist.songs] when the association table pairs it
    with the playlist and its row exists. *)
Lemma Playlist_song_ids_In d pid sid :
  In sid (Playlist_song_ids d pid) <->
  In (pid, sid) (association_table d) /\ song_exists d sid = true.
Proof.
  unfold Playlist_song_ids. rewrite unique_In, filter_In, in_map_iff. split.
  - intros [[[[p s] [Hs Hin]] He] _]. simpl in Hs. subst s.
    apply filter_In in Hin. destruct Hin as [Hin Hp]. simpl in Hp.
    apply Z.eqb_eq in Hp. subst p. auto.
  - intros [Hin He]. split; [|intros []]. split; [|exact He].
    exists (pid, sid). split; [reflexivity|]. apply filter_In. split; [exact Hin|].
    apply Z.eqb_refl.
Qed.

Lemma filter_none {A} (f : A -> bool) l :
  (forall x, In x l -> f x = false) -> filter f l = [].
Proof.
  induction l as [|a l IH]; intros H; simpl; [reflexivity|].
  rewrite (H a (or_introl eq_refl)). apply IH. intros x Hx. apply H. right. exact Hx.
Qed.

Lemma filter_all {A} (f : A -> bool) l :
  (forall x, In x l -> f x = true) -> filter f l = l.
Proof.
  induction l as [|a l IH]; intros H; simpl; [reflexivity|].
  rewrite (H a (or_introl eq_refl)). f_equal. apply IH. intros x Hx. apply H. right. exact Hx.
Qed.

Lemma filter_not_in_self l :
  filter (fun o => negb (mem o l)) l = [].
Proof.
  apply filter_none. intros x Hx. apply negb_false_iff, mem_spec. exact Hx.
Qed.

Lemma filter_not_in_longer l x :
  filter (fun o => negb (mem o (l ++ [x]))) l = [].
Proof.
  apply filter_none. intros y Hy. apply negb_false_iff, mem_spec.
  apply in_or_app. left. exact Hy.
Qed.

(** what the comparison finds as added after an append *)
Lemma added_after_append loaded sid :
  filter (fun o => negb (mem o loaded)) (loaded ++ [sid])
  = if mem sid loaded then [] else [sid].
Proof.
  rewrite filter_app, filter_not_in_self. cbn [filter app].
  destruct (mem sid loaded); reflexivity.
Qed.

(** The flush after [playlist.songs.append(song)]: nothing is deleted
    and the rows of [appended_pairs] are appended. *)
Lemma flush_append E pid loaded sid d :
  flush_songs E pid loaded (loaded ++ [sid]) [sid] d
  = Ok (with_pairs d (association_table d ++ appended_pairs E pid sid loaded)).
Proof.
  unfold flush_songs, matched_pairs, delete_pairs, with_pairs, appended_pairs.
  rewrite filter_not_in_longer, added_after_append.
  rewrite (filter_none (fun r => (fst r =? pid) && mem (snd r) []))
    by (intros; apply andb_false_r).
  cbn [List.length Nat.eqb]. unfold set_association.
  cbn [users playlists songs images assets association_table].
  rewrite (filter_all (fun r => negb ((fst r =? pid) && mem (snd r) [])))
    by (intros; rewrite andb_false_r; reflexivity).
  destruct (mem sid loaded) eqn:Hm, (orm E); cbn; rewrite ?Hm, ?Z.eqb_refl, ?app_nil_r; reflexivity.
Qed.

Lemma list_remove_snoc x l : ~ In x l -> list_remove x (l ++ [x]) = l.
Proof.
  induction l as [|y t IH]; intros H; simpl.
  - rewrite Z.eqb_refl. reflexivity.
  - destruct (Z.eqb_spec y x) as [->|Hne].
    + exfalso. apply H. left. reflexivity.
    + f_equal. apply IH. intros Hx. apply H. right. exact Hx.
Qed.

Lemma NoDup_unique seen l : NoDup (unique seen l).
Proof.
  revert seen. induction l as [|x t IH]; intros seen; cbn [unique]; [constructor|].
  destruct (existsb (Z.eqb x) seen); [apply IH|].
  constructor; [|apply IH].
  intros H. apply unique_In in H. destruct H as [_ H]. apply H. left. reflexivity.
Qed.

Lemma list_remove_In x l o :
  NoDup l -> (In o (list_remove x l) <-> In o l /\ o <> x).
Proof.
  induction l as [|y t IH]; intros Hnd; cbn [list_remove In]; [tauto|].
  inversion Hnd as [|? ? Hy Ht]; subst.
  destruct (Z.eqb_spec y x) as [->|Hne].
  - split.
    + intros H. split; [right; exact H|]. intros ->. exact (Hy H).
    + intros [[H|H] Ho]; [congruence | exact H].
  - cbn [In]. rewrite (IH Ht). split.
    + intros [->|[H Ho]]; [split; [left; reflexivity | exact Hne] | split; [right; exact H | exact Ho]].
    + intros [[->|H] Ho]; [left; reflexivity | right; split; assumption].
Qed.

(** what the comparison finds as deleted after [list.remove] *)
Lemma deleted_after_remove x l :
  NoDup l -> In x l ->
  filter (fun o => negb (mem o (list_remove x l))) l = [x].
Proof.
  induction l as [|y t IH]; intros Hnd Hin; [destruct Hin|].
  inversion Hnd as [|? ? Hy Ht]; subst. cbn [list_remove filter].
  destruct (Z.eqb_spec y x) as [->|Hne].
  - assert (Hm : mem x t = false) by (apply mem_false; exact Hy).
    rewrite Hm. cbn [negb]. rewrite filter_not_in_self. reflexivity.
  - assert (Hm : mem y (y :: list_remove x t) = true)
      by (apply mem_spec; left; reflexivity).
    rewrite Hm. cbn [negb]. destruct Hin as [Hin|Hin]; [congruence|].
    rewrite <- (IH Ht Hin). apply filter_ext_in. intros o Ho.
    unfold mem. cbn [existsb].
    destruct (Z.eqb_spec o y) as [->|]; [contradiction | reflexivity].
Qed.

(** The flush after [playlist.songs.remove(song)]: the rows pairing
    the playlist with the song are deleted when there is exactly one,
    and [StaleDataError] is raised otherwise. *)
Lemma flush_remove E pid loaded sid d :
  NoDup loaded -> In sid loaded ->
  flush_songs E pid loaded (list_remove sid loaded) [] d
  = if Nat.eqb (count_pair pid sid (association_table d)) 1
    then Ok (with_pairs d
               (filter (fun r => negb ((fst r =? pid) && (snd r =? sid)))
                       (association_table d)))
    else Raise StaleDataError.
Proof.
  intros Hnd Hin.
  unfold flush_songs, matched_pairs, delete_pairs, with_pairs, count_pair.
  unfold set_association. cbn [users playlists songs images assets association_table].
  rewrite (deleted_after_remove sid loaded Hnd Hin).
  rewrite (filter_none (fun o => negb (mem o loaded)) (list_remove sid loaded)).
  2:{ intros x Hx. apply negb_false_iff, mem_spec.
      apply (list_remove_In sid loaded x Hnd) in Hx. tauto. }
  assert (He : forall r : Z * Z,
             (fst r =? pid) && mem (snd r) [sid] = (fst r =? pid) && (snd r =? sid)).
  { intros r. unfold mem. cbn [existsb]. rewrite orb_false_r. reflexivity. }
  rewrite (filter_ext _ _ He).
  rewrite (filter_ext (fun r => negb ((fst r =? pid) && mem (snd r) [sid]))
             (fun r => negb ((fst r =? pid) && (snd r =? sid))))
    by (intros r; rewrite He; reflexivity).
  cbn [List.length].
  destruct (Nat.eqb _ 1); [|reflexivity].
  destruct (orm E); cbn; rewrite app_nil_r; reflexivity.
Qed.

Lemma NoDup_Playlist_song_ids d pid : NoDup (Playlist_song_ids d pid).
Proof. unfold Playlist_song_ids. apply NoDup_unique. Qed.

Lemma add_song_to_playlist_found E w pid sid p s :
  first_by_id playlist_id pid (playlists (db w)) = Some p ->
  first_by_id song_id sid (songs (db w)) = Some s ->
  add_song_to_playlist E pid sid w =
    (Ok (success_response (Song_simple_serialize s) 200),
     set_db (fun _ => with_pairs (db w)
                        (association_table (db w)
                         ++ appended_pairs E pid sid (Playlist_song_ids (db w) pid))) w).
Proof.
  intros Hp Hs.
  destruct (first_by_id_some _ _ _ _ Hp) as [Hpid _].
  destruct (first_by_id_some _ _ _ _ Hs) as [Hsid _].
  unfold add_song_to_playlist, bind, query_first, get, put, ret.
  rewrite Hp, Hs, Hpid, Hsid, flush_append. reflexivity.
Qed.

Lemma remove_song_from_playlist_found E w pid sid p s :
  first_by_id playlist_id pid (playlists (db w)) = Some p ->
  first_by_id song_id sid (songs (db w)) = Some s ->
  remove_song_from_playlist E pid sid w =
    if mem sid (Playlist_song_ids (db w) pid)
    then if Nat.eqb (count_pair pid sid (association_table (db w))) 1
         then (Ok (success_response (Song_simple_serialize s) 200),
               set_db (fun _ => with_pairs (db w)
                                  (filter (fun r => negb ((fst r =? pid) && (snd r =? sid)))
                                          (association_table (db w)))) w)
         else (Raise StaleDataError, w)
    else (Ok (failure_response "Song not in playlist" 400), w).
Proof.
  intros Hp Hs.
  destruct (first_by_id_some _ _ _ _ Hp) as [Hpid _].
  destruct (first_by_id_some _ _ _ _ Hs) as [Hsid _].
  unfold remove_song_from_playlist, bind, query_first, get, put, ret.
  rewrite Hp, Hs, Hpid, Hsid.
  destruct (mem sid (Playlist_song_ids (db w) pid)) eqn:Hm; [|reflexivity].
  cbn [negb].
  rewrite (flush_remove E pid _ sid (db w) (NoDup_Playlist_song_ids _ _)
             (proj1 (mem_spec _ _) Hm)).
  destruct (Nat.eqb _ 1); reflexivity.
Qed.

(** [playlist.songs] as loaded once the pair (pid, sid) has been
    appended to the table. *)
Lemma Playlist_song_ids_snoc d pid sid :
  song_exists d sid = true ->
  ~ In sid (Playlist_song_ids d pid) ->
  Playlist_song_ids (with_pairs d (association_table d ++ [(pid, sid)])) pid
  = (Playlist_song_ids d pid ++ [sid])%list.
Proof.
  intros Hex Hnin. unfold Playlist_song_ids, with_pairs in *. cbn [association_table].
  change (song_exists (mkDb (users d) (playlists d) (songs d) (images d) (assets d)
                            (association_table d ++ [(pid, sid)])))
    with (song_exists d).
  rewrite filter_app. cbn [filter fst]. rewrite Z.eqb_refl.
  rewrite map_app, filter_app. cbn [map snd filter]. rewrite Hex.
  rewrite unique_snoc. f_equal.
  assert (Hm : ~ In sid
    (filter (song_exists d)
       (map snd (filter (fun r => fst r =? pid) (association_table d))))).
  { intros Hin. apply Hnin. apply unique_In. split; [exact Hin | intros []]. }
  apply mem_false in Hm. rewrite Hm. reflexivity.
Qed.

(** C5: the handler makes no membership test and the table has no key.
    For a playlist and a song that exist the add answers 200; a song
    not yet in the playlist gets one new pair; for a song already in
    it the outcome is the flush's: a flush that skips loaded members
    stores nothing, a flush that writes the pending append stores the
    pair a second time, and the table then holds a repeated pair. *)
Theorem add_song_to_playlist_pairs
  (E : Env) (w : World) (pid sid : Z) (p : Playlist) (s : Song) :
  first_by_id playlist_id pid (playlists (db w)) = Some p ->
  first_by_id song_id sid (songs (db w)) = Some s ->
  let table := association_table (db w) in
  let table' := association_table (db (snd (add_song_to_playlist E pid sid w))) in
  fst (add_song_to_playlist E pid sid w)
    = Ok (success_response (Song_simple_serialize s) 200) /\
  (~ In sid (Playlist_song_ids (db w) pid) -> table' = (table ++ [(pid, sid)])%list) /\
  (In sid (Playlist_song_ids (db w) pid) ->
     match orm E with
     | SkipsLoaded => table' = table
     | WritesPending => table' = (table ++ [(pid, sid)])%list /\ ~ NoDup table'
     end).
Proof.
  intros Hp Hs table table'. subst table table'.
  rewrite (add_song_to_playlist_found E _ _ _ _ _ Hp Hs).
  cbn [fst snd db set_db with_pairs association_table]. unfold appended_pairs.
  split; [reflexivity|]. split.
  - intros Hnin. apply mem_false in Hnin. rewrite Hnin. reflexivity.
  - intros Hin. pose proof Hin as Hrow.
    apply Playlist_song_ids_In in Hrow. destruct Hrow as [Hrow _].
    apply mem_spec in Hin. rewrite Hin.
    destruct (orm E).
    + apply app_nil_r.
    + split; [reflexivity|]. intros Hnd.
      apply NoDup_remove_2 in Hnd. apply Hnd.
      apply in_or_app. left. exact Hrow.
Qed.

Lemma add_song_to_playlist_pairs_witness :
  let w := serve Demo.env
             [Demo.alice; Demo.mix 1; Demo.song_a; POST_playlists_songs 1 1]
             empty_world in
  fst (add_song_to_playlist Demo.env 1 1 w)
    = Ok (success_response (Song_simple_serialize (mkSong 1 "A" "B" 120 "http://x")) 200) /\
  association_table (db (snd (add_song_to_playlist Demo.env 1 1 w))) = [(1, 1); (1, 1)].
Proof.
  intros w.
  pose proof (add_song_to_playlist_pairs Demo.env w 1 1
                (mkPlaylist 1 "mix" 1 None) (mkSong 1 "A" "B" 120 "http://x")
                eq_refl eq_refl) as H.
  cbv zeta in H. destruct H as [Hr [_ Hm]].
  split; [exact Hr|].
  assert (Hin : In 1 (Playlist_song_ids (db w) 1)) by (vm_compute; left; reflexivity).
  exact (proj1 (Hm Hin)).
Defined.

(** C5 as stated fails: with the flush that writes the pending append,
    adding a song that is already in the playlist stores the pair a
    second time. *)
Lemma second_add_stores_second_pair :
  let w := serve Demo.env
             [Demo.alice; Demo.mix 1; Demo.song_a; POST_playlists_songs 1 1]
             empty_world in
  association_table (db w) = [(1, 1)] /\
  handle Demo.env (POST_playlists_songs 1 1) w
    = (Ok (success_response (Song_simple_serialize (mkSong 1 "A" "B" 120 "http://x")) 200),
       set_db (fun d => with_pairs d [(1, 1); (1, 1)]) w).
Proof. split; reflexivity. Qed.

(** ** Adding then removing a song *)

Lemma count_pair_snoc pid sid rows :
  ~ In (pid, sid) rows -> count_pair pid sid (rows ++ [(pid, sid)]) = 1%nat.
Proof.
  intros Hnin. unfold count_pair. rewrite filter_app.
  rewrite (filter_none (fun r => (fst r =? pid) && (snd r =? sid)) rows).
  - cbn [filter fst snd]. rewrite !Z.eqb_refl. reflexivity.
  - intros [a b] Hr. cbn [fst snd].
    destruct (Z.eqb_spec a pid) as [->|]; [|reflexivity].
    destruct (Z.eqb_spec b sid) as [->|]; [|reflexivity].
    contradiction.
Qed.

Lemma filter_out_snoc pid sid rows :
  ~ In (pid, sid) rows ->
  filter (fun r => negb ((fst r =? pid) && (snd r =? sid))) (rows ++ [(pid, sid)]) = rows.
Proof.
  intros Hnin. rewrite filter_app. cbn [filter fst snd]. rewrite !Z.eqb_refl.
  cbn [andb negb]. rewrite app_nil_r. apply filter_all.
  intros [a b] Hr. cbn [fst snd].
  destruct (Z.eqb_spec a pid) as [->|]; [|reflexivity].
  destruct (Z.eqb_spec b sid) as [->|]; [|reflexivity].
  contradiction.
Qed.

(** C6, as the code has it: for a playlist and a song that exist, when
    the song is not yet in the playlist, adding it and removing it at
    once both succeed and leave the stored rows, and so the playlist's
    song list, as they were; removing a song that is not in the
    playlist answers 400 and changes nothing. *)
Theorem add_then_remove_non_member
  (E : Env) (w : World) (pid sid : Z) (p : Playlist) (s : Song) :
  first_by_id playlist_id pid (playlists (db w)) = Some p ->
  first_by_id song_id sid (songs (db w)) = Some s ->
  ~ In sid (Playlist_song_ids (db w) pid) ->
  (let (r1, w1) := add_song_to_playlist E pid sid w in
   let (r2, w2) := remove_song_from_playlist E pid sid w1 in
   r1 = Ok (success_response (Song_simple_serialize s) 200) /\
   r2 = Ok (success_response (Song_simple_serialize s) 200) /\
   db w2 = db w /\
   Playlist_songs (db w2) pid = Playlist_songs (db w) pid)
  /\ remove_song_from_playlist E pid sid w =
       (Ok (failure_response "Song not in playlist" 400), w).
Proof.
  intros Hp Hs Hnin. split.
  - rewrite (add_song_to_playlist_found E _ _ _ _ _ Hp Hs).
    set (d := db w). set (loaded := Playlist_song_ids d pid) in *.
    assert (Ha : appended_pairs E pid sid loaded = [(pid, sid)]).
    { unfold appended_pairs. assert (Hm0 : mem sid loaded = false) by (apply mem_false; exact Hnin).
      rewrite Hm0. reflexivity. }
    rewrite Ha. set (w1 := set_db _ w).
    assert (Hd1 : db w1 = with_pairs d (association_table d ++ [(pid, sid)]))
      by reflexivity.
    assert (Hrow : ~ In (pid, sid) (association_table d)).
    { intros Hrow. apply Hnin. apply Playlist_song_ids_In. split; [exact Hrow|].
      exact (first_by_id_exists _ _ _ Hs). }
    assert (Hp1 : first_by_id playlist_id pid (playlists (db w1)) = Some p)
      by (rewrite Hd1; exact Hp).
    assert (Hs1 : first_by_id song_id sid (songs (db w1)) = Some s)
      by (rewrite Hd1; exact Hs).
    rewrite (remove_song_from_playlist_found E _ _ _ _ _ Hp1 Hs1).
    assert (Hl1 : Playlist_song_ids (db w1) pid = (loaded ++ [sid])%list).
    { rewrite Hd1. apply (Playlist_song_ids_snoc d pid sid).
      - exact (first_by_id_exists _ _ _ Hs).
      - exact Hnin. }
    rewrite Hl1.
    assert (Hm : mem sid (loaded ++ [sid]) = true).
    { apply mem_spec, in_or_app. right. left. reflexivity. }
    rewrite Hm, Hd1. cbn [with_pairs association_table].
    rewrite (count_pair_snoc _ _ _ Hrow), (filter_out_snoc _ _ _ Hrow).
    cbn [Nat.eqb]. unfold set_db, with_pairs.
    cbn [db users playlists songs images assets].
    assert (Hd2 : mkDb (users d) (playlists d) (songs d) (images d) (assets d)
                       (association_table d) = d) by (destruct d; reflexivity).
    rewrite Hd2. repeat split; reflexivity.
  - rewrite (remove_song_from_playlist_found E _ _ _ _ _ Hp Hs).
    apply mem_false in Hnin. rewrite Hnin. reflexivity.
Qed.

Lemma add_then_remove_non_member_witness :
  let w := serve Demo.env [Demo.alice; Demo.mix 1; Demo.song_a] empty_world in
  let s := mkSong 1 "A" "B" 120 "http://x" in
  (let (r1, w1) := add_song_to_playlist Demo.env 1 1 w in
   let (r2, w2) := remove_song_from_playlist Demo.env 1 1 w1 in
   r1 = Ok (success_response (Song_simple_serialize s) 200) /\
   r2 = Ok (success_response (Song_simple_serialize s) 200) /\
   db w2 = db w /\
   Playlist_songs (db w2) 1 = Playlist_songs (db w) 1)
  /\ remove_song_from_playlist Demo.env 1 1 w =
       (Ok (failure_response "Song not in playlist" 400), w).
Proof.
  intros w s.
  apply (add_then_remove_non_member Demo.env w 1 1 (mkPlaylist 1 "mix" 1 None) s).
  - reflexivity.
  - reflexivity.
  - vm_compute. intros [].
Defined.

(** C6 as stated fails when the song is already in the playlist.  With
    the flush that writes the pending append the second add stores the
    pair again and the remove then raises [StaleDataError], leaving
    the repeated pair in the table; with the flush that skips loaded
    members the remove deletes the one row and the playlist that held
    the song ends up without it.  Either way the add and the remove do
    not both succeed with the song list restored. *)
Lemma add_then_remove_member_fails :
  let w := serve Demo.env
             [Demo.alice; Demo.mix 1; Demo.song_a; POST_playlists_songs 1 1]
             empty_world in
  Playlist_songs (db w) 1 = [mkSong 1 "A" "B" 120 "http://x"] /\
  (let (r1, w1) := add_song_to_playlist Demo.env 1 1 w in
   let (r2, w2) := remove_song_from_playlist Demo.env 1 1 w1 in
   r2 = Raise StaleDataError /\
   association_table (db w2) = [(1, 1); (1, 1)]) /\
  (let (r1, w1) := add_song_to_playlist Demo.env_1_4 1 1 w in
   let (r2, w2) := remove_song_from_playlist Demo.env_1_4 1 1 w1 in
   Playlist_songs (db w2) 1 = [] /\
   Playlist_songs (db w2) 1 <> Playlist_songs (db w) 1).
Proof.
  vm_compute. repeat split; discriminate.
Qed.

(** ** The asset pipeline *)

Section AssetProperties.
Context (E : Env).

Lemma choice_in_alphabet k : In (choice E k (ascii_uppercase ++ digits)) alphabet.
Proof.
  unfold choice, alphabet. apply nth_In.
  apply (randbelow_lt E). vm_compute. lia.
Qed.

Lemma salt_of_shape w :
  String.length (salt_of E w) = 16%nat /\
  Forall (fun c => In c alphabet) (list_ascii_of_string (salt_of E w)).
Proof.
  unfold salt_of. split; [reflexivity|].
  rewrite list_ascii_of_string_of_list_ascii.
  apply Forall_forall. intros c Hc. apply in_map_iff in Hc.
  destruct Hc as [i [<- _]]. apply choice_in_alphabet.
Qed.

(** [upload] answers normally whatever the bucket does; a failing step
    is printed, and only a run without one leaves the object public. *)
Lemma upload_returns name w :
  exists w', upload E name w = (Ok tt, w') /\ db w' = db w /\
    ((s3_fault E name = None /\ stdout w' = stdout w /\ In (name, true) (bucket w'))
     \/ (exists step, s3_fault E name = Some step /\
           stdout w' = (stdout w ++ [("Error when uploading image: " ++
                                       exn_str (IOError step))%string])%list)).
Proof.
  unfold upload, try_except, bind, outside, print.
  destruct (s3_fault E name) as [[]|] eqn:Hf; cbn -[append];
    eexists; (split; [reflexivity|]); (split; [reflexivity|]).
  1-4: right; eexists; split; reflexivity.
  left. split; [reflexivity|]. split; [reflexivity|].
  unfold put_object. apply in_or_app. right. left. reflexivity.
Qed.

Lemma supported_In ext : supported ext = true <-> In ext EXTENSIONS.
Proof.
  unfold supported. rewrite existsb_exists. split.
  - intros [x [Hin Hx]]. apply String.eqb_eq in Hx. subst. exact Hin.
  - intros H. exists ext. split; [exact H | apply String.eqb_refl].
Qed.

(** closes a case of [create] that raised before any assignment *)
Ltac rejected :=
  do 2 eexists; split; [reflexivity|]; split; [reflexivity|]; left;
  split; [reflexivity|]; split; [reflexivity|]; split; [eexists; reflexivity|];
  first [ left; reflexivity
        | right; left; eexists; split; [reflexivity | assumption]
        | right; right; reflexivity
        | right; right; assumption ].

(** What the constructor returns, case by case. *)
Lemma Asset_init_cases image_data w :
  exists a w', Asset_init E image_data w = (Ok a, w') /\ db w' = db w /\
    ((a = blank_asset /\ bucket w' = bucket w /\
      (exists e, stdout w' = (stdout w ++ [("Error when creating image: " ++ exn_str e)%string])%list) /\
      (guessed_extension E image_data = None \/
       (exists ext, guessed_extension E image_data = Some ext /\ supported ext = false) \/
       decoded E image_data = None))
     \/
     (exists ext img,
        guessed_extension E image_data = Some ext /\ supported ext = true /\
        decoded E image_data = Some img /\
        a = mkAsset None (Some (S3_BASE_URL E)) (Some (salt_of E w)) (Some ext)
                    (Some (fst img)) (Some (snd img)) (Some (clock w)) /\
        ((s3_fault E (salt_of E w ++ "." ++ ext) = None /\
          stdout w' = stdout w /\
          In ((salt_of E w ++ "." ++ ext)%string, true) (bucket w'))
         \/ (exists step,
               s3_fault E (salt_of E w ++ "." ++ ext) = Some step /\
               stdout w' = (stdout w ++ [("Error when uploading image: " ++
                                           exn_str (IOError step))%string])%list)))).
Proof.
  unfold Asset_init, create, guessed_extension, decoded, try_except, bind,
    from_option, on_world, on_self, ret, raise, get, random_salt, print.
  cbn [fst snd].
  destruct (guess_type E image_data) as [mime|]; [|rejected].
  destruct (guess_extension E mime) as [dot_ext|]; [|rejected].
  fold (supported (drop_first dot_ext)).
  destruct (supported (drop_first dot_ext)) eqn:Hsup; cbn [negb fst snd]; [|rejected].
  destruct (b64decode E (re_sub_data_url E image_data)) as [bytes|];
    cbn [fst snd]; [|rejected].
  destruct (Image_open E bytes) as [img|] eqn:Himg; cbn [fst snd]; [|rejected].
  cbn [salt extension py_str asset_id blank_asset].
  fold (salt_of E w).
  match goal with
  | |- context [upload E ?name ?w0] =>
      destruct (upload_returns name w0) as [w' [Hup [Hdb Hcases]]]; rewrite Hup
  end.
  do 2 eexists. split; [reflexivity|]. split; [exact Hdb|]. right.
  exists (drop_first dot_ext), img.
  split; [reflexivity|]. split; [exact Hsup|]. split; [reflexivity|].
  split; [reflexivity | exact Hcases].
Qed.

End AssetProperties.

(** C8: an Asset that [create] filled in has a salt of 16 characters,
    each an uppercase letter or a digit, an extension among png, gif,
    jpg and jpeg, and the URL base_url/salt.extension; when the
    extension derived from the input is any other, the object is left
    without a single field set and nothing is sent to the bucket. *)
Theorem Asset_salt_extension_url (E : Env) (image_data : string) (w : World) :
  exists a w', Asset_init E image_data w = (Ok a, w') /\
    (a <> blank_asset ->
       exists base s e,
         base_url a = Some base /\ salt a = Some s /\ extension a = Some e /\
         Asset_not_null a = true /\
         String.length s = 16%nat /\
         Forall (fun c => In c alphabet) (list_ascii_of_string s) /\
         In e EXTENSIONS /\
         base = S3_BASE_URL E /\
         Asset_url a = base ++ "/" ++ s ++ "." ++ e)
    /\ (forall ext, guessed_extension E image_data = Some ext ->
                    ~ In ext EXTENSIONS ->
                    a = blank_asset /\ bucket w' = bucket w).
Proof.
  destruct (Asset_init_cases E image_data w) as [a [w' [Hrun [_ Hcases]]]].
  exists a, w'. split; [exact Hrun|].
  destruct Hcases as [[Hblank [Hbucket _]]|[ext [img [Hext [Hsup [_ [Ha _]]]]]]].
  - split; [intros Hne; contradiction | auto].
  - split.
    + intros _. exists (S3_BASE_URL E), (salt_of E w), ext. subst a. cbn.
      destruct (salt_of_shape E w) as [Hlen Hchars].
      repeat split; auto. apply supported_In. exact Hsup.
    + intros ext' Hext' Hnot. exfalso. apply Hnot.
      rewrite Hext in Hext'. inversion Hext'; subst. apply supported_In. exact Hsup.
Qed.

Lemma Asset_salt_extension_url_witness :
  (exists a w', Asset_init Demo.env Demo.png empty_world = (Ok a, w') /\
     a <> blank_asset /\
     exists base s e,
       base_url a = Some base /\ salt a = Some s /\ extension a = Some e /\
       Asset_not_null a = true /\
       String.length s = 16%nat /\
       Forall (fun c => In c alphabet) (list_ascii_of_string s) /\
       In e EXTENSIONS /\
       base = S3_BASE_URL Demo.env /\
       Asset_url a = base ++ "/" ++ s ++ "." ++ e)
  /\ (exists a w', Asset_init Demo.env Demo.bmp empty_world = (Ok a, w') /\
       a = blank_asset /\ bucket w' = bucket empty_world).
Proof.
  split.
  - destruct (Asset_salt_extension_url Demo.env Demo.png empty_world)
      as [a [w' [Hrun [Hfilled _]]]].
    exists a, w'. split; [exact Hrun|].
    assert (Hne : a <> blank_asset).
    { vm_compute in Hrun. inversion Hrun. discriminate. }
    split; [exact Hne | exact (Hfilled Hne)].
  - destruct (Asset_salt_extension_url Demo.env Demo.bmp empty_world)
      as [a [w' [Hrun [_ Hother]]]].
    exists a, w'. split; [exact Hrun|].
    apply (Hother "bmp").
    + reflexivity.
    + vm_compute. intuition discriminate.
Defined.

(** C9, as the code has it: the constructor returns an object for every
    input and leaves the rows alone, and what it leaves follows from
    the input.  When the type is not found or not supported, or the
    payload does not decode, [create] prints the failure, every field
    stays unset and the bucket is untouched.  Otherwise every field is
    set, to the derived extension and the decoded size; if the
    transfer then fails, [upload] prints the failure and the fields
    stay set, and if it does not fail nothing is printed and the object
    is in the bucket, readable by all. *)
Theorem Asset_init_never_raises (E : Env) (image_data : string) (w : World) :
  exists a w', Asset_init E image_data w = (Ok a, w') /\ db w' = db w /\
    match usable E image_data with
    | None =>
        a = blank_asset /\ bucket w' = bucket w /\
        exists e,
          stdout w' = (stdout w ++ [("Error when creating image: " ++ exn_str e)%string])%list
    | Some (ext, img) =>
        a = mkAsset None (Some (S3_BASE_URL E)) (Some (salt_of E w)) (Some ext)
                    (Some (fst img)) (Some (snd img)) (Some (clock w)) /\
        match s3_fault E (salt_of E w ++ "." ++ ext) with
        | None =>
            stdout w' = stdout w /\
            In ((salt_of E w ++ "." ++ ext)%string, true) (bucket w')
        | Some step =>
            stdout w' = (stdout w ++ [("Error when uploading image: " ++
                                       exn_str (IOError step))%string])%list
        end
    end.
Proof.
  destruct (Asset_init_cases E image_data w) as [a [w' [Hrun [Hdb Hcases]]]].
  exists a, w'. split; [exact Hrun|]. split; [exact Hdb|]. unfold usable.
  destruct Hcases as [[Hblank [Hbucket [Hout Hwhy]]]
                     |[ext [img [Hext [Hsup [Hdec [Ha Hup]]]]]]].
  - assert (Hnone : match guessed_extension E image_data with
                    | Some ext =>
                        if supported ext
                        then match decoded E image_data with
                             | Some img => Some (ext, img)
                             | None => None
                             end
                        else None
                    | None => None
                    end = None).
    { destruct Hwhy as [Hn|[[ext [Hx Hf]]|Hn]].
      - rewrite Hn. reflexivity.
      - rewrite Hx, Hf. reflexivity.
      - rewrite Hn. destruct (guessed_extension E image_data) as [ext|]; [|reflexivity].
        destruct (supported ext); reflexivity. }
    rewrite Hnone. auto.
  - rewrite Hext, Hsup, Hdec. split; [exact Ha|].
    destruct Hup as [[Hf Hrest]|[step [Hf Hout]]]; rewrite Hf; assumption.
Qed.

(** C9 as stated fails on a failed transfer: the failure is printed and
    the bucket stays empty, yet every field of the object is set and
    the handler goes on to store it and to answer 201. *)
Lemma failed_upload_leaves_asset_complete :
  let w := serve Demo.env [Demo.alice; Demo.mix 1] empty_world in
  (exists a w',
     Asset_init Demo.env_offline Demo.png w = (Ok a, w') /\
     stdout w' = ["Error when uploading image: upload step failed"] /\
     bucket w' = [] /\
     a = mkAsset None (Some "https://thumbs.s3.us-east-1.amazonaws.com")
           (Some "ABCDEFGHIJKLMNOP") (Some "png") (Some 640) (Some 480) (Some 0) /\
     Asset_not_null a = true)
  /\ (exists body w', upload_playlist_image Demo.env_offline 1
                        (Object (mkImageBody (Some Demo.png))) w = (Ok (body, 201), w')
                      /\ List.length (assets (db w')) = 1%nat).
Proof.
  split.
  - do 2 eexists. vm_compute. repeat split.
  - do 2 eexists. vm_compute. repeat split.
Qed.

(** ** Order of the checks *)



(** ** What leaves a handler *)





Lemma Img_playlist_found d i p :
  In p (playlists d) -> image_id p = Some i -> Img_playlist d i <> None.
Proof.
  intros Hin Hi Hnone. unfold Img_playlist in Hnone.
  pose proof (find_none _ _ Hnone p Hin) as H. cbv beta in H.
  rewrite Hi, Z.eqb_refl in H. discriminate.
Qed.

















(** ** Deleting a playlist *)

Lemma first_by_id_filtered {A} (key : A -> Z) i rows :
  first_by_id key i (filter (fun r => negb (key r =? i)) rows) = None.
Proof.
  unfold first_by_id. induction rows as [|r rows IH]; [reflexivity|].
  cbn [filter]. destruct (key r =? i) eqn:Hk; cbn [negb]; [exact IH|].
  cbn [find]. rewrite Hk. exact IH.
Qed.

Lemma first_by_id_set_image_id i q v rows :
  first_by_id playlist_id i rows = None ->
  first_by_id playlist_id i (set_image_id q v rows) = None.
Proof.
  unfold first_by_id, set_image_id. induction rows as [|r rows IH]; [reflexivity|].
  cbn [find map]. destruct (playlist_id r =? i) eqn:Hk; [discriminate|].
  intros H. destruct (playlist_id r =? q); cbn [playlist_id]; rewrite Hk; exact (IH H).
Qed.

Lemma delete_image_row_frame i child d :
  images (delete_image_row i child d) = filter (fun r => negb (img_id r =? i)) (images d)
  /\ assets (delete_image_row i child d) = assets d
  /\ forall pid, first_by_id playlist_id pid (playlists d) = None ->
                 first_by_id playlist_id pid (playlists (delete_image_row i child d)) = None.
Proof.
  unfold delete_image_row. destruct child as [c|]; cbn; repeat split; auto.
  intros pid H. apply first_by_id_set_image_id. exact H.
Qed.




(** ** Removing a playlist's image *)

(** C1, on a run the handlers allow: a playlist with an image is
    deleted, which leaves the asset row of that image behind; the next
    image takes the freed image id 1 while its asset takes id 2.
    [remove_playlist_image] then looks the asset up under the image's
    id: it deletes the stale asset 1 and leaves asset 2, the one whose
    upload produced the image's link.  The image row is deleted, the
    image's record is returned and the bucket is untouched. *)
Theorem remove_playlist_image_deletes_asset_with_image_id :
  let w := serve Demo.env
             [Demo.alice; Demo.mix 1; Demo.thumbnail 1 Demo.png;
              DELETE_playlists 1; Demo.mix 1; Demo.thumbnail 1 Demo.png]
             empty_world in
  let url := "https://thumbs.s3.us-east-1.amazonaws.com/QRSTUVWXYZ012345.png" in
  map img_link (images (db w)) = [url] /\
  map (fun a => (asset_id a, Asset_url a)) (assets (db w))
    = [(Some 1, "https://thumbs.s3.us-east-1.amazonaws.com/ABCDEFGHIJKLMNOP.png");
       (Some 2, url)] /\
  exists w',
    remove_playlist_image 1 w =
      (Ok (JObj [("id", JInt 1); ("link", JStr url);
                 ("playlist", JObj [("id", JInt 1); ("playlist_name", JStr "mix")])],
           200), w') /\
    images (db w') = [] /\
    map (fun a => (asset_id a, Asset_url a)) (assets (db w')) = [(Some 2, url)] /\
    bucket w' = bucket w.
Proof.
  vm_compute. repeat split. eexists. repeat split.
Qed.

(** * Further properties of the handlers *)

(** ** Row ids *)

Lemma next_rowid_above ids x : In x ids -> x < next_rowid ids.
Proof.
  unfold next_rowid. induction ids as [|y ids IH]; intros H; [destruct H|].
  cbn [fold_right]. destruct H as [->|H]; [lia|]. specialize (IH H). lia.
Qed.

Lemma next_rowid_fresh ids : ~ In (next_rowid ids) ids.
Proof. intros H. apply next_rowid_above in H. lia. Qed.

Lemma first_by_id_none {A} (key : A -> Z) i rows :
  first_by_id key i rows = None <-> ~ In i (map key rows).
Proof.
  unfold first_by_id. induction rows as [|r rows IH]; cbn [find map In]; [tauto|].
  destruct (Z.eqb_spec (key r) i) as [He|Hne].
  - split; [discriminate | intros H; exfalso; apply H; left; exact He].
  - rewrite IH. tauto.
Qed.

Lemma first_by_id_app_old {A} (key : A -> Z) i rows extra r :
  first_by_id key i rows = Some r -> first_by_id key i (rows ++ extra) = Some r.
Proof.
  unfold first_by_id. induction rows as [|x rows IH]; cbn [find app]; [discriminate|].
  destruct (key x =? i); [auto | exact IH].
Qed.

Lemma first_by_id_app_new {A} (key : A -> Z) rows x :
  ~ In (key x) (map key rows) -> first_by_id key (key x) (rows ++ [x]) = Some x.
Proof.
  unfold first_by_id. induction rows as [|y rows IH]; cbn [find app map In]; intros H.
  - rewrite Z.eqb_refl. reflexivity.
  - destruct (Z.eqb_spec (key y) (key x)) as [He|Hne]; [exfalso; apply H; left; exact He|].
    apply IH. intros Hin. apply H. right. exact Hin.
Qed.

Lemma first_by_id_app_none {A} (key : A -> Z) i rows x :
  first_by_id key i rows = None -> key x <> i ->
  first_by_id key i (rows ++ [x]) = None.
Proof.
  intros Hn Hne. apply first_by_id_none. rewrite map_app, in_app_iff.
  apply first_by_id_none in Hn. cbn. intros [H|[H|[]]]; auto.
Qed.

(** ** Users *)

(** X1: a request without a username is answered 400 and stores
    nothing; with a username the user is stored under an id no stored
    user has, is found under that id afterwards, and every user found
    before is still found. *)
Theorem create_new_user_stores_user (w : World) (name : string) :
  let u := mkUser (next_rowid (map user_id (users (db w)))) name in
  create_new_user (Object (mkUserBody None)) w
    = (Ok (failure_response "Please input a username" 400), w)
  /\ exists body w',
      create_new_user (Object (mkUserBody (Some name))) w = (Ok (body, 200), w') /\
      subscript body "id" = JInt (user_id u) /\
      subscript body "username" = JStr name /\
      users (db w') = (users (db w) ++ [u])%list /\
      ~ In (user_id u) (map user_id (users (db w))) /\
      first_by_id user_id (user_id u) (users (db w')) = Some u /\
      (forall i r, first_by_id user_id i (users (db w)) = Some r ->
                   first_by_id user_id i (users (db w')) = Some r).
Proof.
  intros u. split; [reflexivity|].
  do 2 eexists. split; [reflexivity|].
  cbn [db set_db users set_users].
  split; [reflexivity|]. split; [reflexivity|]. split; [reflexivity|].
  assert (Hfresh : ~ In (user_id u) (map user_id (users (db w))))
    by apply next_rowid_fresh.
  split; [exact Hfresh|]. split.
  - apply (first_by_id_app_new user_id _ u). exact Hfresh.
  - intros i r Hr. apply first_by_id_app_old. exact Hr.
Qed.

(** ** Songs *)

Lemma same_song_refl i t a b l : same_song t a b l (mkSong i t a b l) = true.
Proof.
  unfold same_song. cbn. rewrite !String.eqb_refl, Z.eqb_refl. reflexivity.
Qed.

(** X2: a song that was just created, its bpm within 64 bits, is
    returned by GET /songs/{id} under the id the creation answered
    with, field for field. *)
Theorem add_song_then_get (w : World) (t a : string) (b : Z) (l : string) :
  stored t a b l (db w) = false ->
  sqlite_integer b = true ->
  let s := mkSong (next_rowid (map song_id (songs (db w)))) t a b l in
  exists w',
    add_song_to_database (song_request t a b l) w
      = (Ok (success_response (Song_simple_serialize s) 201), w') /\
    get_song_from_playlist (song_id s) w'
      = (Ok (success_response (Song_simple_serialize s) 200), w').
Proof.
  intros Hs Hb s. rewrite add_song_to_database_eq, Hs, Hb. cbv zeta. fold s.
  eexists. split; [reflexivity|].
  unfold get_song_from_playlist, bind, query_first, ret.
  cbn [db set_db songs set_songs].
  rewrite (first_by_id_app_new song_id _ s) by apply next_rowid_fresh.
  reflexivity.
Qed.

Lemma add_song_then_get_witness :
  let s := mkSong 1 "A" "B" 120 "http://x" in
  exists w',
    add_song_to_database (song_request "A" "B" 120 "http://x") empty_world
      = (Ok (success_response (Song_simple_serialize s) 201), w') /\
    get_song_from_playlist 1 w'
      = (Ok (success_response (Song_simple_serialize s) 200), w').
Proof.
  apply (add_song_then_get empty_world "A" "B" 120 "http://x"); reflexivity.
Defined.

(** X3: for a bpm within 64 bits, whatever the first answer was,
    posting the same four fields a second time is answered 401 and
    stores nothing. *)
Theorem add_song_twice_rejected (w : World) (t a : string) (b : Z) (l : string) :
  sqlite_integer b = true ->
  let w1 := snd (add_song_to_database (song_request t a b l) w) in
  add_song_to_database (song_request t a b l) w1
    = (Ok (failure_response "Song already exists" 401), w1).
Proof.
  intros Hb. cbv zeta. rewrite (add_song_to_database_eq w), Hb.
  destruct (stored t a b l (db w)) eqn:Hs; cbn [snd].
  - rewrite add_song_to_database_eq, Hs. reflexivity.
  - rewrite add_song_to_database_eq. cbn [db set_db].
    rewrite stored_after_insert, same_song_refl, orb_true_r. reflexivity.
Qed.

Lemma add_song_twice_rejected_witness :
  let w1 := snd (add_song_to_database (song_request "A" "B" 120 "http://x") empty_world) in
  add_song_to_database (song_request "A" "B" 120 "http://x") w1
    = (Ok (failure_response "Song already exists" 401), w1).
Proof.
  apply (add_song_twice_rejected empty_world "A" "B" 120 "http://x"). reflexivity.
Defined.

(** X4: a body in which any of title, artist, bpm, link is absent or
    null is answered 400 and stores nothing, whatever the other fields
    are. *)
Theorem add_song_missing_field (w : World) (body : SongBody) :
  b_title body = None \/ b_artist body = None \/
  b_bpm body = None \/ b_link body = None ->
  add_song_to_database (Object body) w
    = (Ok (failure_response "Please input all requested data" 400), w).
Proof.
  intros H. unfold add_song_to_database, bind, json_loads, ret.
  destruct (b_title body), (b_artist body), (b_bpm body), (b_link body);
    try reflexivity.
  destruct H as [H|[H|[H|H]]]; discriminate.
Qed.

Lemma add_song_missing_field_witness :
  add_song_to_database
    (Object (mkSongBody (Some "A") (Some "B") None (Some "http://x"))) empty_world
  = (Ok (failure_response "Please input all requested data" 400), empty_world).
Proof.
  apply add_song_missing_field. right. right. left. reflexivity.
Defined.

(** X5: a search whose upper bound lies below its lower bound finds
    nothing and is answered with the empty-result 400, whatever is
    stored; a body without one of the bounds is answered with the
    missing-range 400. *)
Theorem get_songs_bpm_edges (w : World) :
  (forall lo hi, hi < lo ->
     get_songs_bpm (Object (mkBpmBody (Some lo) (Some hi))) w
     = (Ok (failure_response "No songs in this range were found" 400), w))
  /\ (forall body, b_lower_bpm body = None \/ b_upper_bpm body = None ->
        get_songs_bpm (Object body) w
        = (Ok (failure_response "Please input a bpm range" 400), w)).
Proof.
  split.
  - intros lo hi Hlt. unfold get_songs_bpm, bind, json_loads, ret, query.
    cbn [b_lower_bpm b_upper_bpm]. rewrite filter_map_swap, filter_none; [reflexivity|].
    intros s _. cbn. unfold in_range.
    destruct (Z.leb_spec lo (bpm s)), (Z.ltb_spec (bpm s) (hi + 1)); auto; lia.
  - intros body H. unfold get_songs_bpm, bind, json_loads, ret.
    destruct (b_lower_bpm body), (b_upper_bpm body); try reflexivity.
    destruct H; discriminate.
Qed.

Lemma get_songs_bpm_edges_witness :
  let w := serve Demo.env [Demo.song_a] empty_world in
  get_songs_bpm (Object (mkBpmBody (Some 130) (Some 110))) w
    = (Ok (failure_response "No songs in this range were found" 400), w)
  /\ get_songs_bpm (Object (mkBpmBody None (Some 110))) w
    = (Ok (failure_response "Please input a bpm range" 400), w).
Proof.
  intros w. destruct (get_songs_bpm_edges w) as [Hinv Hmiss]. split.
  - apply Hinv. lia.
  - apply Hmiss. left. reflexivity.
Defined.

(** ** Playlists *)

Lemma no_rows_no_songs d pid :
  (forall sid, ~ In (pid, sid) (association_table d)) -> Playlist_song_ids d pid = [].
Proof.
  intros H. unfold Playlist_song_ids. rewrite (filter_none _ (association_table d)).
  - reflexivity.
  - intros [p s] Hin. cbn [fst]. destruct (Z.eqb_spec p pid) as [->|]; [|reflexivity].
    exfalso. exact (H s Hin).
Qed.

(** X6: a playlist created for an existing user is answered with its
    new id, its name and no image, and GET /playlists/{id}/ under that
    id then shows the same playlist with its user and an empty song
    list. *)
Theorem create_playlist_then_get (w : World) (uid : Z) (u : User) (name : string) :
  first_by_id user_id uid (users (db w)) = Some u ->
  let pid := next_rowid (map playlist_id (playlists (db w))) in
  (forall sid, ~ In (pid, sid) (association_table (db w))) ->
  exists w',
    create_new_playlist uid (Object (mkPlaylistBody (Some name))) w
      = (Ok (success_response
               (JObj [("id", JInt pid); ("playlist_name", JStr name); ("image", JNull)])
               200), w') /\
    get_specific_playlist pid w'
      = (Ok (success_response
               (JObj [("id", JInt pid); ("playlist_name", JStr name); ("image", JNull);
                      ("user", User_simple_serialize u); ("songs", JList [])])
               200), w').
Proof.
  intros Hu pid Hrows.
  unfold create_new_playlist, bind, query_first, json_loads, ret, get, add_playlist.
  rewrite Hu. cbn [b_playlist_name fst snd]. fold pid.
  eexists. split; [reflexivity|].
  unfold get_specific_playlist, bind, query_first, get, ret, lift_result.
  cbn [db set_db playlists set_playlists].
  rewrite (first_by_id_app_new playlist_id _ (mkPlaylist pid name uid None))
    by apply next_rowid_fresh.
  unfold Playlist_serialize, Playlist_user, Playlist_image, Playlist_songs.
  cbn [playlist_user_id image_id playlist_id playlist_name users set_playlists
       db set_db].
  rewrite Hu. rewrite no_rows_no_songs by exact Hrows. reflexivity.
Qed.

Lemma create_playlist_then_get_witness :
  let w := serve Demo.env [Demo.alice] empty_world in
  exists w',
    create_new_playlist 1 (Object (mkPlaylistBody (Some "mix"))) w
      = (Ok (success_response
               (JObj [("id", JInt 1); ("playlist_name", JStr "mix"); ("image", JNull)])
               200), w') /\
    get_specific_playlist 1 w'
      = (Ok (success_response
               (JObj [("id", JInt 1); ("playlist_name", JStr "mix"); ("image", JNull);
                      ("user", User_simple_serialize (mkUser 1 "alice"));
                      ("songs", JList [])])
               200), w').
Proof.
  intros w.
  apply (create_playlist_then_get w 1 (mkUser 1 "alice") "mix").
  - reflexivity.
  - intros sid H. exact H.
Defined.

(** X7: after a playlist is created for a user, GET
    /users/{id}/playlists/ lists what it listed before followed by the
    new playlist, shown with its id, its name and no image. *)
Theorem create_playlist_then_list (w : World) (uid : Z) (u : User) (name : string) :
  first_by_id user_id uid (users (db w)) = Some u ->
  let pid := next_rowid (map playlist_id (playlists (db w))) in
  let w' := snd (create_new_playlist uid (Object (mkPlaylistBody (Some name))) w) in
  exists before,
    get_user_playlists uid w
      = (Ok (success_response (JObj [("playlists", JList before)]) 200), w) /\
    get_user_playlists uid w'
      = (Ok (success_response
               (JObj [("playlists",
                       JList (before ++
                              [JObj [("id", JInt pid); ("playlist_name", JStr name);
                                     ("image", JNull)]]))]) 200), w').
Proof.
  intros Hu pid.
  unfold create_new_playlist, bind, query_first, json_loads, ret, get, add_playlist.
  rewrite Hu. cbn [b_playlist_name fst snd]. fold pid. cbv zeta.
  eexists. unfold get_user_playlists, bind, query_first, get, ret.
  cbn [db set_db users set_playlists playlists]. rewrite Hu.
  split; [reflexivity|].
  cbn [db set_db playlists set_playlists].
  rewrite filter_app, map_app. cbn [filter playlist_user_id map].
  rewrite Z.eqb_refl. cbn [map]. reflexivity.
Qed.

Lemma create_playlist_then_list_witness :
  let w := serve Demo.env [Demo.alice; Demo.mix 1] empty_world in
  let w' := snd (create_new_playlist 1 (Object (mkPlaylistBody (Some "gym"))) w) in
  exists before,
    get_user_playlists 1 w
      = (Ok (success_response (JObj [("playlists", JList before)]) 200), w) /\
    get_user_playlists 1 w'
      = (Ok (success_response
               (JObj [("playlists",
                       JList (before ++
                              [JObj [("id", JInt 2); ("playlist_name", JStr "gym");
                                     ("image", JNull)]]))]) 200), w').
Proof.
  intros w. apply (create_playlist_then_list w 1 (mkUser 1 "alice") "gym"). reflexivity.
Defined.

(** ** Songs of a playlist *)



(** membership in [playlist.songs] once the association table is replaced *)
Lemma with_pairs_member d rows p' s' :
  In s' (Playlist_song_ids (with_pairs d rows) p') <->
  In (p', s') rows /\ song_exists d s' = true.
Proof. exact (Playlist_song_ids_In (with_pairs d rows) p' s'). Qed.

Lemma appended_pairs_In E pid sid loaded r :
  In r (appended_pairs E pid sid loaded) -> r = (pid, sid).
Proof.
  unfold appended_pairs.
  destruct (mem sid loaded), (orm E); cbn [In]; intuition congruence.
Qed.

Lemma filter_out_pair_In pid sid rows (r : Z * Z) :
  In r (filter (fun r => negb ((fst r =? pid) && (snd r =? sid))) rows) <->
  In r rows /\ r <> (pid, sid).
Proof.
  rewrite filter_In, negb_true_iff, andb_false_iff, !Z.eqb_neq.
  destruct r as [a b]. cbn [fst snd]. split.
  - intros [Hr Hne]. split; [exact Hr|]. intros Heq. inversion Heq; subst.
    destruct Hne as [H|H]; apply H; reflexivity.
  - intros [Hr Hne]. split; [exact Hr|].
    destruct (Z.eq_dec a pid) as [->|Ha]; [|left; exact Ha].
    right. intros ->. apply Hne. reflexivity.
Qed.

(** X8: adding an existing song to an existing playlist answers 200
    with the song's record and leaves the song in the playlist; no
    other song of this playlist and no other playlist gains or loses
    anything. *)
Theorem add_song_makes_member
  (E : Env) (w : World) (pid sid : Z) (p : Playlist) (s : Song) :
  first_by_id playlist_id pid (playlists (db w)) = Some p ->
  first_by_id song_id sid (songs (db w)) = Some s ->
  exists w',
    add_song_to_playlist E pid sid w
      = (Ok (success_response (Song_simple_serialize s) 200), w') /\
    In sid (Playlist_song_ids (db w') pid) /\
    (forall p' s', (p', s') <> (pid, sid) ->
       (In s' (Playlist_song_ids (db w') p') <-> In s' (Playlist_song_ids (db w) p'))).
Proof.
  intros Hp Hs. rewrite (add_song_to_playlist_found E _ _ _ _ _ Hp Hs).
  eexists. split; [reflexivity|]. cbn [db set_db].
  pose proof (first_by_id_exists _ _ _ Hs) as Hex. split.
  - apply with_pairs_member. split; [|exact Hex]. apply in_or_app.
    unfold appended_pairs.
    destruct (mem sid (Playlist_song_ids (db w) pid)) eqn:Hm.
    + left. apply mem_spec, Playlist_song_ids_In in Hm. tauto.
    + right. left. reflexivity.
  - intros p' s' Hne. rewrite with_pairs_member, Playlist_song_ids_In, in_app_iff.
    split; [|tauto].
    intros [[H|H] He]; [tauto|]. apply appended_pairs_In in H. congruence.
Qed.

Lemma add_song_makes_member_witness :
  let w := serve Demo.env [Demo.alice; Demo.mix 1; Demo.song_a] empty_world in
  let s := mkSong 1 "A" "B" 120 "http://x" in
  exists w',
    add_song_to_playlist Demo.env 1 1 w
      = (Ok (success_response (Song_simple_serialize s) 200), w') /\
    In 1 (Playlist_song_ids (db w') 1) /\
    (forall p' s', (p', s') <> (1, 1) ->
       (In s' (Playlist_song_ids (db w') p') <-> In s' (Playlist_song_ids (db w) p'))).
Proof.
  intros w s.
  apply (add_song_makes_member Demo.env w 1 1 (mkPlaylist 1 "mix" 1 None) s); reflexivity.
Defined.

(** X9: removing a song that is in the playlist, when the table pairs
    them exactly once, answers 200 with the song's record and leaves
    the playlist without it; no other song of this playlist and no
    other playlist gains or loses anything.  When the table pairs them
    more than once, the commit raises [StaleDataError] and nothing is
    removed. *)
Theorem remove_song_makes_non_member
  (E : Env) (w : World) (pid sid : Z) (p : Playlist) (s : Song) :
  first_by_id playlist_id pid (playlists (db w)) = Some p ->
  first_by_id song_id sid (songs (db w)) = Some s ->
  In sid (Playlist_song_ids (db w) pid) ->
  (count_pair pid sid (association_table (db w)) = 1%nat ->
   exists w',
     remove_song_from_playlist E pid sid w
       = (Ok (success_response (Song_simple_serialize s) 200), w') /\
     ~ In sid (Playlist_song_ids (db w') pid) /\
     (forall p' s', (p', s') <> (pid, sid) ->
        (In s' (Playlist_song_ids (db w') p') <-> In s' (Playlist_song_ids (db w) p'))))
  /\ (count_pair pid sid (association_table (db w)) <> 1%nat ->
      remove_song_from_playlist E pid sid w = (Raise StaleDataError, w)).
Proof.
  intros Hp Hs Hin. rewrite (remove_song_from_playlist_found E _ _ _ _ _ Hp Hs).
  pose proof Hin as Hm. apply mem_spec in Hm. rewrite Hm. split.
  - intros Hone. rewrite Hone. cbn [Nat.eqb].
    eexists. split; [reflexivity|]. cbn [db set_db]. split.
    + rewrite with_pairs_member, filter_out_pair_In.
      intros [[_ Hne] _]. apply Hne. reflexivity.
    + intros p' s' Hne.
      rewrite with_pairs_member, filter_out_pair_In, Playlist_song_ids_In. tauto.
  - intros Hmany. apply Nat.eqb_neq in Hmany. rewrite Hmany. reflexivity.
Qed.

Lemma remove_song_makes_non_member_witness :
  let w := serve Demo.env
             [Demo.alice; Demo.mix 1; Demo.song_a; POST_playlists_songs 1 1]
             empty_world in
  let w2 := snd (handle Demo.env (POST_playlists_songs 1 1) w) in
  let s := mkSong 1 "A" "B" 120 "http://x" in
  (exists w',
     remove_song_from_playlist Demo.env 1 1 w
       = (Ok (success_response (Song_simple_serialize s) 200), w') /\
     ~ In 1 (Playlist_song_ids (db w') 1) /\
     (forall p' s', (p', s') <> (1, 1) ->
        (In s' (Playlist_song_ids (db w') p') <-> In s' (Playlist_song_ids (db w) p'))))
  /\ remove_song_from_playlist Demo.env 1 1 w2 = (Raise StaleDataError, w2).
Proof.
  intros w w2 s. split.
  - apply (remove_song_makes_non_member Demo.env w 1 1 (mkPlaylist 1 "mix" 1 None) s).
    + reflexivity.
    + reflexivity.
    + vm_compute. left. reflexivity.
    + reflexivity.
  - apply (remove_song_makes_non_member Demo.env w2 1 1 (mkPlaylist 1 "mix" 1 None) s).
    + reflexivity.
    + reflexivity.
    + vm_compute. left. reflexivity.
    + vm_compute. discriminate.
Defined.

(** ** What a deleted playlist leaves behind *)

Lemma delete_playlist_row_frame p d :
  association_table (delete_playlist_row p d)
    = filter (fun r => negb ((fst r =? playlist_id p)
                             && mem (snd r) (Playlist_song_ids d (playlist_id p))))
             (association_table d)
  /\ songs (delete_playlist_row p d) = songs d
  /\ users (delete_playlist_row p d) = users d
  /\ assets (delete_playlist_row p d) = assets d
  /\ first_by_id playlist_id (playlist_id p) (playlists (delete_playlist_row p d)) = None.
Proof.
  unfold delete_playlist_row.
  destruct (Playlist_image d p) as [i|].
  - destruct (delete_image_row_frame (img_id i) (Img_playlist d (img_id i))
                (set_playlists
                   (filter (fun r => negb (playlist_id r =? playlist_id p)))
                   (delete_pairs (playlist_id p)
                      (Playlist_song_ids d (playlist_id p)) d)))
      as [_ [_ Hpl]].
    unfold delete_image_row in *.
    destruct (Img_playlist d (img_id i)); cbn in *;
      (repeat split; [apply Hpl; apply first_by_id_filtered]).
  - cbn. repeat split. apply first_by_id_filtered.
Qed.




(** ** Uploading a playlist image *)

Lemma first_by_id_set_image_id_found pid v rows p :
  first_by_id playlist_id pid rows = Some p ->
  first_by_id playlist_id pid (set_image_id pid v rows)
  = Some (mkPlaylist (playlist_id p) (playlist_name p) (playlist_user_id p) v).
Proof.
  unfold first_by_id, set_image_id. induction rows as [|r rows IH]; cbn [find map];
    [discriminate|].
  destruct (playlist_id r =? pid) eqn:Hk; cbn [find playlist_id]; rewrite Hk.
  - intros H. inversion H; subst. reflexivity.
  - exact IH.
Qed.

(** [create] fills the object exactly when the extension is supported
    and the image decodes. *)
Lemma Asset_init_filled E data w ext img :
  guessed_extension E data = Some ext -> supported ext = true ->
  decoded E data = Some img ->
  exists w1,
    Asset_init E data w
      = (Ok (mkAsset None (Some (S3_BASE_URL E)) (Some (salt_of E w)) (Some ext)
                     (Some (fst img)) (Some (snd img)) (Some (clock w))), w1)
    /\ db w1 = db w.
Proof.
  intros Hext Hsup Hdec.
  destruct (Asset_init_cases E data w) as [a [w1 [Hrun [Hdb Hcases]]]].
  exists w1. split; [|exact Hdb]. rewrite Hrun.
  destruct Hcases as [[_ [_ [_ [Hn|[[ext' [He Hs]]|Hn]]]]]
                     |[ext' [img' [He [_ [Hd [Ha _]]]]]]].
  - congruence.
  - rewrite Hext in He. inversion He; subst. congruence.
  - congruence.
  - rewrite Hext in He. rewrite Hdec in Hd. inversion He; inversion Hd; subst.
    reflexivity.
Qed.

Lemma Asset_init_blank E data w :
  guessed_extension E data = None \/
  (exists ext, guessed_extension E data = Some ext /\ supported ext = false) \/
  decoded E data = None ->
  exists w1, Asset_init E data w = (Ok blank_asset, w1)
             /\ db w1 = db w /\ bucket w1 = bucket w
             /\ exists e, stdout w1
                  = (stdout w ++ [("Error when creating image: " ++ exn_str e)%string])%list.
Proof.
  intros Hwhy.
  destruct (Asset_init_cases E data w) as [a [w1 [Hrun [Hdb Hcases]]]].
  exists w1. rewrite Hrun.
  destruct Hcases as [[Ha [Hb [Hout _]]]|[ext' [img' [He [Hs [Hd _]]]]]].
  - subst a. auto.
  - exfalso. destruct Hwhy as [Hn|[[ext [Hx Hf]]|Hn]].
    + congruence.
    + rewrite He in Hx. inversion Hx; subst. congruence.
    + congruence.
Qed.

(** X11: for an existing playlist and an image whose type is supported
    and whose payload decodes, the upload answers 201 with the new
    image's id and the link base_url/salt.extension; one image row and
    one asset row with that URL are appended, the image the playlist
    had before, if any, is deleted as an orphan, and the playlist's
    [image_id] is the new image's id.  This holds whether or not the
    transfer to the bucket succeeded. *)
Theorem upload_playlist_image_stores
    (E : Env) (w : World) (pid : Z) (p : Playlist) (data ext : string) (img : Z * Z) :
  first_by_id playlist_id pid (playlists (db w)) = Some p ->
  guessed_extension E data = Some ext ->
  supported ext = true ->
  decoded E data = Some img ->
  let url := S3_BASE_URL E ++ "/" ++ salt_of E w ++ "." ++ ext in
  let iid := next_rowid (map img_id (images (db w))) in
  let aid := next_rowid (map asset_key (assets (db w))) in
  exists body w',
    upload_playlist_image E pid (Object (mkImageBody (Some data))) w
      = (Ok (body, 201), w') /\
    subscript body "id" = JInt iid /\
    subscript body "link" = JStr url /\
    images (db w')
      = (match Playlist_image (db w) p with
         | Some old => filter (fun r => negb (img_id r =? img_id old)) (images (db w))
         | None => images (db w)
         end ++ [mkImg iid url])%list /\
    assets (db w')
      = (assets (db w) ++
         [mkAsset (Some aid) (Some (S3_BASE_URL E)) (Some (salt_of E w)) (Some ext)
                  (Some (fst img)) (Some (snd img)) (Some (clock w))])%list /\
    first_by_id playlist_id pid (playlists (db w'))
      = Some (mkPlaylist (playlist_id p) (playlist_name p) (playlist_user_id p) (Some iid)).
Proof.
  intros Hp Hext Hsup Hdec url iid aid.
  destruct (Asset_init_filled E data w ext img Hext Hsup Hdec) as [w1 [Hrun Hdb]].
  destruct (first_by_id_some _ _ _ _ Hp) as [Hpid Hin].
  unfold upload_playlist_image, bind, query_first, json_loads, ret.
  rewrite Hp. cbn [b_image_data fst snd]. rewrite Hrun.
  unfold add_asset, Asset_not_null, add_image, get, lift_result.
  cbn [base_url salt extension width height created_at is_some andb
       db set_db set_assets set_images playlists images img_id assets].
  rewrite Hdb, Hp. fold iid aid.
  unfold Asset_url. cbn [base_url salt extension py_str]. fold url.
  match goal with
  | |- context [Playlist_image ?d p] =>
      change (Playlist_image d p) with (Playlist_image (db w) p)
  end.
  match goal with
  | |- context [Img_playlist ?d ?j] =>
      destruct (Img_playlist d j) as [owner|] eqn:Ho
  end.
  - do 2 eexists. split; [reflexivity|].
    unfold set_playlists, set_images.
    cbn [db set_db images assets playlists set_assets].
    rewrite ?Hdb.
    split; [reflexivity|]. split; [reflexivity|]. split; [reflexivity|].
    split; [reflexivity|].
    apply first_by_id_set_image_id_found. exact Hp.
  - exfalso. revert Ho.
    apply (Img_playlist_found _ iid
             (mkPlaylist (playlist_id p) (playlist_name p) (playlist_user_id p) (Some iid))).
    + unfold set_playlists, set_images. cbn [playlists]. unfold set_image_id. apply in_map_iff. exists p. split; [|exact Hin].
      rewrite Hpid, Z.eqb_refl. reflexivity.
    + reflexivity.
Qed.

Lemma upload_playlist_image_stores_witness :
  let w := serve Demo.env_offline [Demo.alice; Demo.mix 1; Demo.thumbnail 1 Demo.png]
             empty_world in
  let url := "https://thumbs.s3.us-east-1.amazonaws.com/QRSTUVWXYZ012345.png" in
  images (db w)
    = [mkImg 1 "https://thumbs.s3.us-east-1.amazonaws.com/ABCDEFGHIJKLMNOP.png"] /\
  exists body w',
    upload_playlist_image Demo.env_offline 1 (Object (mkImageBody (Some Demo.png))) w
      = (Ok (body, 201), w') /\
    subscript body "id" = JInt 2 /\
    subscript body "link" = JStr url /\
    images (db w') = [mkImg 2 url] /\
    assets (db w')
      = (assets (db w) ++
         [mkAsset (Some 2) (Some "https://thumbs.s3.us-east-1.amazonaws.com")
                  (Some "QRSTUVWXYZ012345") (Some "png")
                  (Some 640) (Some 480) (Some 0)])%list /\
    first_by_id playlist_id 1 (playlists (db w'))
      = Some (mkPlaylist 1 "mix" 1 (Some 2)).
Proof.
  intros w url. split; [reflexivity|].
  apply (upload_playlist_image_stores Demo.env_offline w 1
           (mkPlaylist 1 "mix" 1 (Some 1)) Demo.png "png" (640, 480)); reflexivity.
Defined.

(** X12: for an existing playlist, a body without [image_data] is
    answered 404 and changes nothing; an image whose type cannot be
    derived or is not supported, or whose payload does not decode,
    makes the commit of the empty Asset raise [IntegrityError] out of
    the handler: no row is stored and nothing is sent to the bucket. *)
Theorem upload_playlist_image_rejects
    (E : Env) (w : World) (pid : Z) (p : Playlist) (data : string) :
  first_by_id playlist_id pid (playlists (db w)) = Some p ->
  upload_playlist_image E pid (Object (mkImageBody None)) w
    = (Ok (failure_response "No base64 image found." 404), w)
  /\ (guessed_extension E data = None \/
      (exists ext, guessed_extension E data = Some ext /\ supported ext = false) \/
      decoded E data = None ->
      exists w',
        upload_playlist_image E pid (Object (mkImageBody (Some data))) w
          = (Raise IntegrityError, w') /\
        db w' = db w /\ bucket w' = bucket w).
Proof.
  intros Hp. split.
  - unfold upload_playlist_image, bind, query_first, json_loads, ret.
    rewrite Hp. reflexivity.
  - intros Hwhy.
    destruct (Asset_init_blank E data w Hwhy) as [w1 [Hrun [Hdb [Hb _]]]].
    unfold upload_playlist_image, bind, query_first, json_loads, ret.
    rewrite Hp. cbn [b_image_data fst snd]. rewrite Hrun.
    exists w1. auto.
Qed.

Lemma upload_playlist_image_rejects_witness :
  let w := serve Demo.env [Demo.alice; Demo.mix 1] empty_world in
  upload_playlist_image Demo.env 1 (Object (mkImageBody None)) w
    = (Ok (failure_response "No base64 image found." 404), w)
  /\ exists w',
       upload_playlist_image Demo.env 1 (Object (mkImageBody (Some Demo.bmp))) w
         = (Raise IntegrityError, w') /\
       db w' = db w /\ bucket w' = bucket w.
Proof.
  intros w.
  destruct (upload_playlist_image_rejects Demo.env w 1 (mkPlaylist 1 "mix" 1 None)
              Demo.bmp eq_refl) as [Hnone Hbad].
  split; [exact Hnone|]. apply Hbad.
  right. left. exists "bmp". split; reflexivity.
Defined.

(** ** Removing a playlist image *)

(** X13: when the playlist has an image, it is the only playlist
    holding that image, and an asset is stored under the image's id,
    the removal answers 200 with the image's id and link, deletes the
    image row and the asset row of that id, leaves the playlist
    without an image, and touches neither the other tables nor the
    bucket. *)
Theorem remove_playlist_image_deletes_rows
    (w : World) (pid i : Z) (p : Playlist) (img : Img) (a : Asset) :
  first_by_id playlist_id pid (playlists (db w)) = Some p ->
  image_id p = Some i ->
  (forall q, In q (playlists (db w)) -> image_id q = Some i -> playlist_id q = pid) ->
  first_by_id img_id i (images (db w)) = Some img ->
  first_by_id asset_key i (assets (db w)) = Some a ->
  exists body w',
    remove_playlist_image pid w = (Ok (body, 200), w') /\
    subscript body "id" = JInt i /\
    subscript body "link" = JStr (img_link img) /\
    images (db w') = filter (fun r => negb (img_id r =? i)) (images (db w)) /\
    assets (db w') = filter (fun r => negb (asset_key r =? i)) (assets (db w)) /\
    first_by_id playlist_id pid (playlists (db w'))
      = Some (mkPlaylist (playlist_id p) (playlist_name p) (playlist_user_id p) None) /\
    users (db w') = users (db w) /\
    songs (db w') = songs (db w) /\
    association_table (db w') = association_table (db w) /\
    bucket w' = bucket w.
Proof.
  intros Hp Hi Honly Himg Ha.
  destruct (first_by_id_some _ _ _ _ Hp) as [Hpid Hin].
  destruct (first_by_id_some _ _ _ _ Himg) as [Hiid _].
  destruct (first_by_id_some _ _ _ _ Ha) as [Haid _].
  unfold remove_playlist_image, bind, query_first, get, modify, ret, lift_result.
  rewrite Hp. cbn [fst snd]. rewrite Hi, Himg, Ha, Hiid, Haid.
  destruct (Img_playlist (db w) i) as [owner|] eqn:Ho.
  2:{ exfalso. revert Ho. exact (Img_playlist_found _ _ _ Hin Hi). }
  assert (Howner : playlist_id owner = pid).
  { unfold Img_playlist in Ho. apply find_some in Ho. destruct Ho as [Hino Hio].
    apply (Honly owner Hino). destruct (image_id owner) as [j|]; [|discriminate].
    apply Z.eqb_eq in Hio. congruence. }
  cbn [Img_serialize fst snd].
  do 2 eexists. split; [reflexivity|].
  unfold delete_asset_row, delete_image_row.
  cbn [db set_db images assets playlists users songs association_table
       set_assets set_images set_playlists bucket].
  rewrite Hiid, Howner.
  split; [reflexivity|]. split; [reflexivity|]. split; [reflexivity|].
  split; [reflexivity|].
  split; [apply first_by_id_set_image_id_found; exact Hp|].
  repeat split.
Qed.

Lemma remove_playlist_image_deletes_rows_witness :
  let w := serve Demo.env [Demo.alice; Demo.mix 1; Demo.thumbnail 1 Demo.png] empty_world in
  let url := "https://thumbs.s3.us-east-1.amazonaws.com/ABCDEFGHIJKLMNOP.png" in
  exists body w',
    remove_playlist_image 1 w = (Ok (body, 200), w') /\
    subscript body "id" = JInt 1 /\
    subscript body "link" = JStr url /\
    images (db w') = filter (fun r => negb (img_id r =? 1)) (images (db w)) /\
    assets (db w') = filter (fun r => negb (asset_key r =? 1)) (assets (db w)) /\
    first_by_id playlist_id 1 (playlists (db w')) = Some (mkPlaylist 1 "mix" 1 None) /\
    users (db w') = users (db w) /\
    songs (db w') = songs (db w) /\
    association_table (db w') = association_table (db w) /\
    bucket w' = bucket w.
Proof.
  intros w url.
  apply (remove_playlist_image_deletes_rows w 1 1
           (mkPlaylist 1 "mix" 1 (Some 1)) (mkImg 1 url)
           (mkAsset (Some 1) (Some "https://thumbs.s3.us-east-1.amazonaws.com")
                    (Some "ABCDEFGHIJKLMNOP") (Some "png")
                    (Some 640) (Some 480) (Some 0))); try reflexivity.
  intros q [<-|[]] _. reflexivity.
Defined.

(** X14: for an existing playlist, the removal answers 404 and changes
    nothing when the playlist has no image; when it has one and no
    asset is stored under the image's id, [db.session.delete(None)]
    raises out of the handler and nothing is deleted, the image
    included. *)
Theorem remove_playlist_image_errors (w : World) (pid : Z) (p : Playlist) :
  first_by_id playlist_id pid (playlists (db w)) = Some p ->
  (Playlist_image (db w) p = None ->
   remove_playlist_image pid w
   = (Ok (failure_response "There is no image associated with this playlist" 404), w))
  /\ (forall img, Playlist_image (db w) p = Some img ->
        first_by_id asset_key (img_id img) (assets (db w)) = None ->
        remove_playlist_image pid w = (Raise UnmappedInstanceError, w)).
Proof.
  intros Hp.
  unfold remove_playlist_image, Playlist_image, bind, query_first, get, ret, raise.
  rewrite Hp. cbn [fst snd]. split.
  - intros Hnone. destruct (image_id p) as [i|]; [rewrite Hnone|]; reflexivity.
  - intros img Himg Hasset. destruct (image_id p) as [i|]; [|discriminate].
    rewrite Himg. destruct (first_by_id_some _ _ _ _ Himg) as [Hid _].
    rewrite Hid in Hasset. rewrite Hasset. reflexivity.
Qed.

Lemma remove_playlist_image_errors_witness :
  (let w := serve Demo.env [Demo.alice; Demo.mix 1] empty_world in
   remove_playlist_image 1 w
   = (Ok (failure_response "There is no image associated with this playlist" 404), w))
  /\ (let w := serve Demo.env
                 [Demo.alice; Demo.mix 1; Demo.thumbnail 1 Demo.png; DELETE_playlists 1;
                  Demo.mix 1; Demo.thumbnail 1 Demo.png; DELETE_playlists_images 1;
                  Demo.thumbnail 1 Demo.png]
                 empty_world in
      remove_playlist_image 1 w = (Raise UnmappedInstanceError, w)).
Proof.
  split.
  - intros w.
    apply (proj1 (remove_playlist_image_errors w 1 (mkPlaylist 1 "mix" 1 None) eq_refl)).
    reflexivity.
  - intros w.
    apply (proj2 (remove_playlist_image_errors w 1 (mkPlaylist 1 "mix" 1 (Some 1)) eq_refl)
             (mkImg 1 "https://thumbs.s3.us-east-1.amazonaws.com/6789ABCDEFGHIJKL.png"));
      reflexivity.
Defined.

(** ** The transfer to the bucket *)

Lemma put_object_In name pub objs o b :
  In (o, b) (put_object name pub objs) <->
  (o = name /\ b = pub) \/ (o <> name /\ In (o, b) objs).
Proof.
  unfold put_object. rewrite in_app_iff, filter_In. cbn [fst In].
  rewrite negb_true_iff, String.eqb_neq. split.
  - intros [[H Hne]|[H|[]]]; [right; auto | left; inversion H; auto].
  - intros [[-> ->]|[Hne H]]; [right; left; reflexivity | left; auto].
Qed.

(** X15: [upload] never raises and never touches the rows or the
    objects stored under other names.  Without a failure the object is
    in the bucket and public, and nothing is printed; when saving or
    sending fails the bucket is as it was; when setting the ACL fails
    the object is in the bucket but not public; when removing the
    temporary file fails the object is public all the same.  Every
    failure is printed. *)
Theorem upload_bucket_effects (E : Env) (name : string) (w : World) :
  exists w',
    upload E name w = (Ok tt, w') /\
    db w' = db w /\
    (forall other pub, other <> name ->
       (In (other, pub) (bucket w') <-> In (other, pub) (bucket w))) /\
    match s3_fault E name with
    | None =>
        In (name, true) (bucket w') /\ ~ In (name, false) (bucket w') /\
        stdout w' = stdout w
    | Some step =>
        stdout w' = (stdout w ++ [("Error when uploading image: " ++
                                   exn_str (IOError step))%string])%list /\
        match step with
        | ImgSave | UploadFile => bucket w' = bucket w
        | AclPut => In (name, false) (bucket w') /\ ~ In (name, true) (bucket w')
        | OsRemove => In (name, true) (bucket w') /\ ~ In (name, false) (bucket w')
        end
    end.
Proof.
  unfold upload, try_except, bind, outside, print.
  destruct (s3_fault E name) as [[]|] eqn:Hf; cbn -[append put_object];
    eexists; (split; [reflexivity|]); (split; [reflexivity|]);
    cbn [bucket set_bucket].
  - split; [tauto|]. split; reflexivity.
  - split; [tauto|]. split; reflexivity.
  - split.
    + intros other pub Hne. rewrite put_object_In. tauto.
    + split; [reflexivity|]. rewrite !put_object_In. split; [tauto|].
      intros [[_ H]|[H _]]; [discriminate | apply H; reflexivity].
  - split.
    + intros other pub Hne. rewrite !put_object_In. tauto.
    + split; [reflexivity|]. rewrite !put_object_In. split; [tauto|].
      intros [[_ H]|[H _]]; [discriminate | apply H; reflexivity].
  - split.
    + intros other pub Hne. rewrite !put_object_In. tauto.
    + rewrite !put_object_In. split; [tauto|]. split; [|reflexivity].
      intros [[_ H]|[H _]]; [discriminate | apply H; reflexivity].
Qed.

(** ** Consistency of the rows is kept *)

Lemma found_iff {A} (key : A -> Z) i rows :
  first_by_id key i rows <> None <-> In i (map key rows).
Proof.
  rewrite first_by_id_none.
  destruct (in_dec Z.eq_dec i (map key rows)); tauto.
Qed.

Lemma song_exists_iff d sid : song_exists d sid = true <-> In sid (map song_id (songs d)).
Proof.
  unfold song_exists. rewrite existsb_exists, in_map_iff. split.
  - intros [s [Hin Hs]]. apply Z.eqb_eq in Hs. exists s. auto.
  - intros [s [Hs Hin]]. exists s. split; [exact Hin | apply Z.eqb_eq; exact Hs].
Qed.

Lemma NoDup_map_snoc_fresh {A} (key : A -> Z) rows x :
  NoDup (map key rows) -> key x = next_rowid (map key rows) ->
  NoDup (map key (rows ++ [x])).
Proof.
  intros Hnd Hk. rewrite map_app. apply NoDup_app; [exact Hnd | repeat constructor; intros [] |].
  intros a Ha [<-|[]]. rewrite Hk in Ha. exact (next_rowid_fresh _ Ha).
Qed.

Lemma NoDup_map_filter {A} (key : A -> Z) (f : A -> bool) rows :
  NoDup (map key rows) -> NoDup (map key (filter f rows)).
Proof.
  induction rows as [|r rows IH]; cbn [map filter]; intros H; [constructor|].
  inversion H as [|? ? Hr Hrows]; subst.
  destruct (f r); cbn [map]; [|exact (IH Hrows)].
  constructor; [|exact (IH Hrows)].
  intros Hin. apply Hr. apply in_map_iff in Hin. destruct Hin as [y [Hy Hin]].
  apply filter_In in Hin. apply in_map_iff. exists y. tauto.
Qed.

Lemma NoDup_filter_rows {A} (f : A -> bool) l : NoDup l -> NoDup (filter f l).
Proof.
  induction l as [|a l IH]; cbn [filter]; intros H; [constructor|].
  inversion H as [|? ? Ha Hl]; subst.
  destruct (f a); [|exact (IH Hl)].
  constructor; [|exact (IH Hl)]. intros Hin. apply filter_In in Hin. tauto.
Qed.

Lemma In_keys_filter_out {A} (key : A -> Z) i j rows :
  In j (map key (filter (fun r => negb (key r =? i)) rows)) <->
  In j (map key rows) /\ j <> i.
Proof.
  rewrite !in_map_iff. split.
  - intros [r [Hk Hin]]. apply filter_In in Hin. destruct Hin as [Hin Hne].
    apply negb_true_iff, Z.eqb_neq in Hne. split; [exists r; auto | congruence].
  - intros [[r [Hk Hin]] Hne]. exists r. split; [exact Hk|].
    apply filter_In. split; [exact Hin|]. apply negb_true_iff, Z.eqb_neq. congruence.
Qed.

Lemma In_set_image_id x v rows p' :
  In p' (set_image_id x v rows) <->
  exists q, In q rows /\ p' = if playlist_id q =? x then with_image v q else q.
Proof.
  unfold set_image_id. rewrite in_map_iff. split.
  - intros [q [Hq Hin]]. exists q. split; [exact Hin | symmetry; exact Hq].
  - intros [q [Hin Hq]]. exists q. split; [symmetry; exact Hq | exact Hin].
Qed.

Lemma map_id_set_image_id x v rows :
  map playlist_id (set_image_id x v rows) = map playlist_id rows.
Proof.
  unfold set_image_id. rewrite map_map. apply map_ext.
  intros q. destruct (playlist_id q =? x); reflexivity.
Qed.

(** what a row of [set_image_id] says about the row it came from *)
Lemma set_image_id_origin x v rows p' :
  In p' (set_image_id x v rows) ->
  exists q, In q rows /\ playlist_id p' = playlist_id q /\
            playlist_user_id p' = playlist_user_id q /\
            ((playlist_id q = x /\ image_id p' = v) \/
             (playlist_id q <> x /\ image_id p' = image_id q)).
Proof.
  intros H. apply In_set_image_id in H. destruct H as [q [Hin ->]].
  exists q. split; [exact Hin|].
  destruct (Z.eqb_spec (playlist_id q) x); cbn; auto.
Qed.

Lemma references_listed_iff d : references_hold d <-> references_listed d.
Proof.
  unfold references_hold, references_listed. split.
  - intros (R1 & R2 & R3 & R4). repeat split; auto.
    + intros p Hp. apply found_iff. auto.
    + intros p i Hp Hi. apply found_iff. eauto.
    + apply found_iff. apply (R4 pid sid). assumption.
    + apply song_exists_iff. apply (R4 pid sid). assumption.
  - intros (R1 & R2 & R3 & R4). repeat split; auto.
    + intros p Hp. apply found_iff. auto.
    + intros p i Hp Hi. apply found_iff. eauto.
    + apply found_iff. apply (R4 pid sid). assumption.
    + apply song_exists_iff. apply (R4 pid sid). assumption.
Qed.

Lemma consistent_sound d : consistent d <-> sound d.
Proof. unfold consistent, sound. rewrite references_listed_iff. tauto. Qed.

Ltac open_sound H :=
  destruct H as [(K1 & K2 & K3 & K4 & K5) (R1 & R2 & R3 & R4)].

Ltac split_sound :=
  unfold sound, keys_unique, references_listed;
  cbn [users playlists songs images assets association_table
       set_users set_playlists set_songs set_images set_assets set_association];
  split; [repeat split | split; [|split; [|split]]].

Lemma sound_add_user d name :
  sound d ->
  sound (set_users (fun rows => (rows ++ [mkUser (next_rowid (map user_id (users d))) name])%list) d).
Proof.
  intros H. open_sound H. split_sound; auto.
  - apply NoDup_map_snoc_fresh; auto.
  - intros p Hp. rewrite map_app, in_app_iff. left. auto.
Qed.

Lemma sound_add_song d t a b l :
  sound d ->
  sound (set_songs (fun rows => (rows ++ [mkSong (next_rowid (map song_id (songs d))) t a b l])%list) d).
Proof.
  intros H. open_sound H. split_sound; auto.
  - apply NoDup_map_snoc_fresh; auto.
  - intros pid sid Hrow. destruct (R4 pid sid Hrow). split; [assumption|].
    rewrite map_app, in_app_iff. left. assumption.
Qed.

Lemma sound_add_playlist d name uid :
  In uid (map user_id (users d)) ->
  sound d ->
  sound (set_playlists
           (fun rows => (rows ++ [mkPlaylist (next_rowid (map playlist_id (playlists d)))
                                             name uid None])%list) d).
Proof.
  intros Hu H. open_sound H. split_sound; auto.
  - apply NoDup_map_snoc_fresh; auto.
  - intros p Hp. apply in_app_or in Hp. destruct Hp as [Hp|[<-|[]]]; auto.
  - intros p i Hp Hi. apply in_app_or in Hp.
    destruct Hp as [Hp|[<-|[]]]; [eauto | discriminate].
  - intros p q i Hp Hq Hi Hj. apply in_app_or in Hp. apply in_app_or in Hq.
    destruct Hp as [Hp|[<-|[]]]; [|discriminate].
    destruct Hq as [Hq|[<-|[]]]; [eauto | discriminate].
  - intros pid sid Hrow. destruct (R4 pid sid Hrow). split; [|assumption].
    rewrite map_app, in_app_iff. left. assumption.
Qed.

Lemma sound_add_asset d a :
  asset_key a = next_rowid (map asset_key (assets d)) ->
  sound d ->
  sound (set_assets (fun rows => (rows ++ [a])%list) d).
Proof.
  intros Ha H. open_sound H. split_sound; auto.
  apply NoDup_map_snoc_fresh; auto.
Qed.

(** a change of the association table that only drops rows or adds
    rows between existing playlists and songs *)
Lemma sound_table d (f : list (Z * Z) -> list (Z * Z)) :
  (forall r, In r (f (association_table d)) ->
             In r (association_table d) \/
             (In (fst r) (map playlist_id (playlists d)) /\
              In (snd r) (map song_id (songs d)))) ->
  sound d ->
  sound (set_association f d).
Proof.
  intros Hrows H. open_sound H. split_sound; auto.
  intros pid sid Hrow. destruct (Hrows _ Hrow) as [Hold|Hnew]; [auto | exact Hnew].
Qed.

Lemma NoDup_app_snoc {A} (l : list A) x : NoDup l -> ~ In x l -> NoDup (l ++ [x]).
Proof.
  intros Hnd Hx. apply NoDup_app; [exact Hnd | repeat constructor; intros [] |].
  intros y Hy [<-|[]]. exact (Hx Hy).
Qed.

Lemma sound_add_image d lnk pid (keep : Img -> bool) :
  (forall p j, In p (playlists d) -> playlist_id p <> pid -> image_id p = Some j ->
               forall r, In r (images d) -> img_id r = j -> keep r = true) ->
  sound d ->
  sound (set_playlists
           (set_image_id pid (Some (next_rowid (map img_id (images d)))))
           (set_images
              (fun rows => (filter keep rows
                            ++ [mkImg (next_rowid (map img_id (images d))) lnk])%list)
              d)).
Proof.
  intros Hkeep H. open_sound H.
  set (iid := next_rowid (map img_id (images d))).
  assert (Hfresh : ~ In iid (map img_id (images d))) by apply next_rowid_fresh.
  split_sound; auto.
  - rewrite map_id_set_image_id. exact K2.
  - rewrite map_app. cbn [map img_id]. apply NoDup_app_snoc.
    + apply NoDup_map_filter. exact K4.
    + intros Hin. apply Hfresh. apply in_map_iff in Hin.
      destruct Hin as [r [Hr Hin]]. apply filter_In in Hin.
      apply in_map_iff. exists r. tauto.
  - intros p' Hp'. apply set_image_id_origin in Hp'.
    destruct Hp' as [q [Hq [_ [Hu _]]]]. rewrite Hu. auto.
  - intros p' j Hp' Hj. apply set_image_id_origin in Hp'.
    destruct Hp' as [q [Hq [_ [_ [[_ Hv]|[Hx Hv]]]]]]; rewrite map_app, in_app_iff.
    + right. left. cbn. congruence.
    + left. assert (Hqj : image_id q = Some j) by congruence.
      pose proof (R2 q j Hq Hqj) as Hin. apply in_map_iff in Hin.
      destruct Hin as [r [Hr Hin]]. apply in_map_iff. exists r.
      split; [exact Hr|]. apply filter_In. split; [exact Hin|].
      exact (Hkeep q j Hq Hx Hqj r Hin Hr).
  - intros p' q' j Hp' Hq' Hj Hj'.
    apply set_image_id_origin in Hp'. apply set_image_id_origin in Hq'.
    destruct Hp' as [qp [Hqp [Hidp [_ Hcp]]]].
    destruct Hq' as [qq [Hqq [Hidq [_ Hcq]]]].
    rewrite Hidp, Hidq.
    destruct Hcp as [[Hxp Hvp]|[Hxp Hvp]], Hcq as [[Hxq Hvq]|[Hxq Hvq]].
    + congruence.
    + exfalso. apply Hfresh. apply (R2 qq); congruence.
    + exfalso. apply Hfresh. apply (R2 qp); congruence.
    + apply (R3 qp qq j); congruence.
  - intros p s Hrow. rewrite map_id_set_image_id. auto.
Qed.

Lemma sound_add_unowned_image d lnk :
  sound d ->
  sound (set_images
           (fun rows => (rows ++ [mkImg (next_rowid (map img_id (images d))) lnk])%list) d).
Proof.
  intros H. open_sound H. split_sound; auto.
  - apply NoDup_map_snoc_fresh; auto.
  - intros p j Hp Hj. rewrite map_app, in_app_iff. left. eauto.
Qed.

(** the rows [add_image] leaves are those of a sound database *)
Lemma add_image_sound lnk pid w :
  sound (db w) -> sound (db (snd (add_image lnk pid w))).
Proof.
  intros H. unfold add_image. cbn [snd db set_db].
  destruct (first_by_id playlist_id pid (playlists (db w))) as [p|] eqn:Hp.
  - destruct (first_by_id_some _ _ _ _ Hp) as [Hpid Hin].
    unfold Playlist_image.
    destruct (image_id p) as [j|] eqn:Hj.
    + destruct (first_by_id img_id j (images (db w))) as [old|] eqn:Hold.
      * destruct (first_by_id_some _ _ _ _ Hold) as [Hoid _].
        apply sound_add_image; [|exact H].
        intros q j' Hq Hne Hj' r Hr Hrj. apply negb_true_iff, Z.eqb_neq.
        intros Heq. apply Hne. rewrite <- Hpid.
        open_sound H. apply (R3 q p j); congruence.
      * assert (Hsame : forall d0 : Db,
                  set_images (fun rows => (rows ++ [mkImg (next_rowid (map img_id (images (db w)))) lnk])%list) d0
                  = set_images (fun rows => (filter (fun _ : Img => true) rows
                        ++ [mkImg (next_rowid (map img_id (images (db w)))) lnk])%list) d0).
        { intros d0. unfold set_images. rewrite filter_all by reflexivity. reflexivity. }
        rewrite Hsame. apply sound_add_image; [|exact H]. reflexivity.
    + assert (Hsame : forall d0 : Db,
                set_images (fun rows => (rows ++ [mkImg (next_rowid (map img_id (images (db w)))) lnk])%list) d0
                = set_images (fun rows => (filter (fun _ : Img => true) rows
                      ++ [mkImg (next_rowid (map img_id (images (db w)))) lnk])%list) d0).
      { intros d0. unfold set_images. rewrite filter_all by reflexivity. reflexivity. }
      rewrite Hsame. apply sound_add_image; [|exact H]. reflexivity.
  - assert (Hid : forall d0, set_playlists (fun rows => rows) d0 = d0)
      by (intros []; reflexivity).
    rewrite Hid. apply sound_add_unowned_image. exact H.
Qed.

Lemma Img_playlist_some d i owner :
  Img_playlist d i = Some owner -> In owner (playlists d) /\ image_id owner = Some i.
Proof.
  unfold Img_playlist. intros H. apply find_some in H. destruct H as [Hin Hi].
  split; [exact Hin|]. destruct (image_id owner) as [j|]; [|discriminate].
  apply Z.eqb_eq in Hi. congruence.
Qed.

Lemma sound_remove_image d i k owner :
  Img_playlist d i = Some owner ->
  sound d ->
  sound (delete_asset_row k (delete_image_row i (Some owner) d)).
Proof.
  intros Ho H. open_sound H.
  destruct (Img_playlist_some _ _ _ Ho) as [Hino Hio].
  unfold delete_asset_row, delete_image_row. split_sound; auto.
  - rewrite map_id_set_image_id. exact K2.
  - apply NoDup_map_filter. exact K4.
  - apply NoDup_map_filter. exact K5.
  - intros p' Hp'. apply set_image_id_origin in Hp'.
    destruct Hp' as [q [Hq [_ [Hu _]]]]. rewrite Hu. auto.
  - intros p' j Hp' Hj. apply set_image_id_origin in Hp'.
    destruct Hp' as [q [Hq [_ [_ [[_ Hv]|[Hx Hv]]]]]]; [congruence|].
    apply In_keys_filter_out. split; [apply (R2 q); congruence|].
    intros ->. apply Hx. apply (R3 q owner i); congruence.
  - intros p' q' j Hp' Hq' Hj Hj'.
    apply set_image_id_origin in Hp'. apply set_image_id_origin in Hq'.
    destruct Hp' as [qp [Hqp [Hidp [_ [[_ Hvp]|[_ Hvp]]]]]]; [congruence|].
    destruct Hq' as [qq [Hqq [Hidq [_ [[_ Hvq]|[_ Hvq]]]]]]; [congruence|].
    rewrite Hidp, Hidq. apply (R3 qp qq j); congruence.
  - intros p s Hrow. rewrite map_id_set_image_id. auto.
Qed.

Lemma set_image_id_absent x v rows :
  set_image_id x v (filter (fun r => negb (playlist_id r =? x)) rows)
  = filter (fun r => negb (playlist_id r =? x)) rows.
Proof.
  unfold set_image_id. induction rows as [|r rows IH]; [reflexivity|].
  cbn [filter]. destruct (playlist_id r =? x) eqn:Hk; cbn [negb map]; [exact IH|].
  rewrite Hk, IH. reflexivity.
Qed.

(** What the delete of a playlist leaves, in a sound database. *)
Lemma delete_playlist_row_shape d p :
  sound d -> In p (playlists d) ->
  delete_playlist_row p d =
  mkDb (users d)
       (filter (fun r => negb (playlist_id r =? playlist_id p)) (playlists d))
       (songs d)
       (match image_id p with
        | Some i => filter (fun r => negb (img_id r =? i)) (images d)
        | None => images d
        end)
       (assets d)
       (filter (fun r => negb ((fst r =? playlist_id p)
                               && mem (snd r) (Playlist_song_ids d (playlist_id p))))
               (association_table d)).
Proof.
  intros H Hp. open_sound H.
  unfold delete_playlist_row, Playlist_image.
  destruct (image_id p) as [i|] eqn:Hi.
  - destruct (first_by_id img_id i (images d)) as [img|] eqn:Himg.
    2:{ exfalso. apply first_by_id_none in Himg. apply Himg. apply (R2 p); assumption. }
    destruct (first_by_id_some _ _ _ _ Himg) as [Hid _]. rewrite Hid.
    destruct (Img_playlist d i) as [owner|] eqn:Ho.
    2:{ exfalso. revert Ho. exact (Img_playlist_found _ _ _ Hp Hi). }
    destruct (Img_playlist_some _ _ _ Ho) as [Hino Hio].
    assert (Hsame : playlist_id owner = playlist_id p) by (apply (R3 owner p i); assumption).
    unfold delete_image_row, delete_pairs, set_playlists, set_images, set_association.
    cbn [users playlists songs images assets association_table].
    rewrite Hsame, set_image_id_absent. reflexivity.
  - unfold delete_pairs, set_playlists, set_association.
    cbn [users playlists songs images assets association_table].
    reflexivity.
Qed.

Lemma sound_delete_playlist d p :
  In p (playlists d) -> sound d -> sound (delete_playlist_row p d).
Proof.
  intros Hp H. rewrite (delete_playlist_row_shape d p H Hp). open_sound H.
  split_sound; auto.
  - apply NoDup_map_filter. exact K2.
  - destruct (image_id p); [apply NoDup_map_filter|]; exact K4.
  - intros q Hq. apply filter_In in Hq. destruct Hq as [Hq _]. auto.
  - intros q j Hq Hj. apply filter_In in Hq. destruct Hq as [Hq Hne].
    apply negb_true_iff, Z.eqb_neq in Hne.
    destruct (image_id p) as [i|] eqn:Hi; [|eauto].
    apply In_keys_filter_out. split; [eauto|].
    intros ->. apply Hne. apply (R3 q p i); assumption.
  - intros q q' j Hq Hq'. apply filter_In in Hq. apply filter_In in Hq'.
    destruct Hq as [Hq _], Hq' as [Hq' _]. eauto.
  - intros pid sid Hrow. apply filter_In in Hrow. destruct Hrow as [Hrow Hkeep].
    cbn [fst snd] in Hkeep. destruct (R4 pid sid Hrow) as [Hpl Hsg].
    split; [|exact Hsg]. apply In_keys_filter_out. split; [exact Hpl|].
    intros ->. rewrite Z.eqb_refl in Hkeep. cbn [andb] in Hkeep.
    apply negb_true_iff, mem_false in Hkeep. apply Hkeep.
    apply Playlist_song_ids_In. split; [exact Hrow|].
    apply song_exists_iff. exact Hsg.
Qed.

Lemma get_songs_bpm_reads data w : snd (get_songs_bpm data w) = w.
Proof.
  unfold get_songs_bpm, bind, json_loads, raise, ret, query.
  destruct data as [| |body]; try reflexivity. cbn [fst snd].
  destruct (b_lower_bpm body), (b_upper_bpm body); try reflexivity.
  destruct (filter _ _); reflexivity.
Qed.

Lemma get_user_playlists_reads u w : snd (get_user_playlists u w) = w.
Proof.
  unfold get_user_playlists, bind, query_first, get, ret.
  destruct (first_by_id _ _ _); reflexivity.
Qed.

Lemma get_specific_playlist_reads p w : snd (get_specific_playlist p w) = w.
Proof.
  unfold get_specific_playlist, bind, query_first, get, ret, lift_result.
  destruct (first_by_id _ _ _) as [pl|]; [|reflexivity]. cbn [fst snd].
  destruct (Playlist_serialize (db w) pl); reflexivity.
Qed.

Lemma get_song_from_playlist_reads s w : snd (get_song_from_playlist s w) = w.
Proof.
  unfold get_song_from_playlist, bind, query_first, ret.
  destruct (first_by_id _ _ _); reflexivity.
Qed.

Lemma first_by_id_listed {A} (key : A -> Z) i rows r :
  first_by_id key i rows = Some r -> In i (map key rows).
Proof.
  intros H. apply first_by_id_some in H. destruct H as [<- Hin].
  apply in_map. exact Hin.
Qed.

Lemma create_new_user_sound data w :
  sound (db w) -> sound (db (snd (create_new_user data w))).
Proof.
  intros H. unfold create_new_user, bind, json_loads, raise, ret, get, add_user.
  destruct data as [| |body]; try exact H. cbn [fst snd].
  destruct (b_username body); [|exact H]. cbn [fst snd db set_db].
  apply sound_add_user. exact H.
Qed.

Lemma add_song_to_database_sound data w :
  sound (db w) -> sound (db (snd (add_song_to_database data w))).
Proof.
  intros H. unfold add_song_to_database, bind, json_loads, raise, ret, query, add_song.
  destruct data as [| |body]; try exact H. cbn [fst snd].
  destruct (b_title body), (b_artist body), (b_bpm body), (b_link body); try exact H.
  destruct (py_in _ _); [exact H|].
  destruct (sqlite_integer _); [|exact H]. cbn [fst snd db set_db].
  apply sound_add_song. exact H.
Qed.

Lemma create_new_playlist_sound u data w :
  sound (db w) -> sound (db (snd (create_new_playlist u data w))).
Proof.
  intros H.
  unfold create_new_playlist, bind, query_first, json_loads, raise, ret, get, add_playlist.
  destruct (first_by_id user_id u (users (db w))) as [usr|] eqn:Hu; [|exact H].
  destruct data as [| |body]; try exact H. cbn [fst snd].
  destruct (b_playlist_name body); [|exact H]. cbn [fst snd db set_db].
  apply sound_add_playlist; [|exact H]. exact (first_by_id_listed _ _ _ _ Hu).
Qed.

Lemma delete_playlist_sound p w :
  sound (db w) -> sound (db (snd (delete_playlist p w))).
Proof.
  intros H. unfold delete_playlist, bind, query_first, get, modify, ret, lift_result.
  destruct (first_by_id playlist_id p (playlists (db w))) as [pl|] eqn:Hp; [|exact H].
  cbn [fst snd]. destruct (Playlist_serialize (db w) pl); [|exact H].
  cbn [fst snd db set_db]. apply sound_delete_playlist; [|exact H].
  apply first_by_id_some in Hp. tauto.
Qed.

Lemma sound_with_pairs d rows :
  (forall r, In r rows ->
             In r (association_table d) \/
             (In (fst r) (map playlist_id (playlists d)) /\
              In (snd r) (map song_id (songs d)))) ->
  sound d ->
  sound (with_pairs d rows).
Proof.
  intros Hrows H.
  change (with_pairs d rows) with (set_association (fun _ => rows) d).
  apply sound_table; assumption.
Qed.

Lemma add_song_to_playlist_sound E p s w :
  sound (db w) -> sound (db (snd (add_song_to_playlist E p s w))).
Proof.
  intros H.
  destruct (first_by_id playlist_id p (playlists (db w))) as [pl|] eqn:Hp.
  - destruct (first_by_id song_id s (songs (db w))) as [sg|] eqn:Hs.
    + rewrite (add_song_to_playlist_found E _ _ _ _ _ Hp Hs). cbn [snd db set_db].
      apply sound_with_pairs; [|exact H].
      intros r Hr. apply in_app_or in Hr. destruct Hr as [Hr|Hr]; [left; exact Hr|].
      apply appended_pairs_In in Hr. subst r. right. cbn [fst snd]. split.
      * exact (first_by_id_listed _ _ _ _ Hp).
      * exact (first_by_id_listed _ _ _ _ Hs).
    + unfold add_song_to_playlist, bind, query_first, ret. rewrite Hp, Hs. exact H.
  - unfold add_song_to_playlist, bind, query_first, ret. rewrite Hp. exact H.
Qed.

Lemma remove_song_from_playlist_sound E p s w :
  sound (db w) -> sound (db (snd (remove_song_from_playlist E p s w))).
Proof.
  intros H.
  destruct (first_by_id playlist_id p (playlists (db w))) as [pl|] eqn:Hp.
  - destruct (first_by_id song_id s (songs (db w))) as [sg|] eqn:Hs.
    + rewrite (remove_song_from_playlist_found E _ _ _ _ _ Hp Hs).
      destruct (mem s _); [|exact H].
      destruct (Nat.eqb _ 1); [|exact H]. cbn [snd db set_db].
      apply sound_with_pairs; [|exact H].
      intros r Hr. apply filter_In in Hr. left. tauto.
    + unfold remove_song_from_playlist, bind, query_first, ret. rewrite Hp, Hs. exact H.
  - unfold remove_song_from_playlist, bind, query_first, ret. rewrite Hp. exact H.
Qed.

Lemma upload_playlist_image_sound E p data w :
  sound (db w) -> sound (db (snd (upload_playlist_image E p data w))).
Proof.
  intros H. unfold upload_playlist_image, bind, query_first, json_loads, raise, ret.
  destruct (first_by_id playlist_id p (playlists (db w))) as [pl|] eqn:Hp; [|exact H].
  destruct data as [| |body]; try exact H. cbn [fst snd].
  destruct (b_image_data body) as [image_data|]; [|exact H].
  destruct (Asset_init_cases E image_data w) as [a [w1 [Hrun [Hdb _]]]].
  rewrite Hrun. unfold add_asset.
  destruct (Asset_not_null a); [|cbn [snd]; rewrite Hdb; exact H].
  match goal with
  | |- context [add_image ?u ?q ?w2] =>
      assert (Hs : sound (db (snd (add_image u q w2))));
      [ apply add_image_sound; cbn [db set_db]; rewrite Hdb;
        apply sound_add_asset; [reflexivity | exact H]
      | destruct (add_image u q w2) as [[i|e] w3] ]
  end; cbn [snd] in Hs; [|exact Hs].
  unfold get, lift_result.
  match goal with
  | |- context [Img_serialize ?i ?o] => destruct (Img_serialize i o)
  end; exact Hs.
Qed.

Lemma remove_playlist_image_sound p w :
  sound (db w) -> sound (db (snd (remove_playlist_image p w))).
Proof.
  intros H. unfold remove_playlist_image, bind, query_first, get, modify, raise, ret, lift_result.
  destruct (first_by_id playlist_id p (playlists (db w))) as [pl|] eqn:Hp; [|exact H].
  cbn [fst snd].
  destruct (image_id pl) as [i|] eqn:Hi; [|exact H].
  destruct (first_by_id img_id i (images (db w))) as [img|] eqn:Himg; [|exact H].
  destruct (first_by_id asset_key i (assets (db w))) as [a|]; [|exact H].
  destruct (first_by_id_some _ _ _ _ Hp) as [_ Hin].
  destruct (first_by_id_some _ _ _ _ Himg) as [Hid _].
  rewrite Hid.
  destruct (Img_playlist (db w) i) as [owner|] eqn:Ho.
  2:{ exfalso. revert Ho. exact (Img_playlist_found _ _ _ Hin Hi). }
  cbn [Img_serialize fst snd db set_db].
  apply sound_remove_image; assumption.
Qed.

Lemma handle_sound E req w : sound (db w) -> sound (db (snd (handle E req w))).
Proof.
  intros H. destruct req; cbn [handle].
  - apply create_new_user_sound, H.
  - apply add_song_to_database_sound, H.
  - rewrite get_songs_bpm_reads. exact H.
  - rewrite get_user_playlists_reads. exact H.
  - apply create_new_playlist_sound, H.
  - rewrite get_specific_playlist_reads. exact H.
  - apply delete_playlist_sound, H.
  - apply add_song_to_playlist_sound, H.
  - apply remove_song_from_playlist_sound, H.
  - rewrite get_song_from_playlist_reads. exact H.
  - apply upload_playlist_image_sound, H.
  - apply remove_playlist_image_sound, H.
Qed.

Lemma serve_sound E rs w : sound (db w) -> sound (db (serve E rs w)).
Proof.
  unfold serve. revert w. induction rs as [|r rs IH]; intros w H; [exact H|].
  cbn [fold_left]. apply IH. apply handle_sound. exact H.
Qed.

Lemma empty_sound : sound empty_db.
Proof.
  unfold sound, keys_unique, references_listed. cbn.
  repeat split; try constructor; intros; contradiction.
Qed.

(** X16: the empty database is consistent, and serving any sequence of
    application requests from a consistent database ends in a
    consistent one, whichever way the flush treats a repeated append:
    primary keys stay unrepeated, every playlist's user and image
    exist, no image belongs to two playlists, and the association
    table pairs existing playlists with existing songs.  (A pair may
    come to be stored more than once; that is no part of the
    invariant.) *)
Theorem serve_keeps_consistent (E : Env) (rs : list request) (w : World) :
  consistent empty_db /\
  (consistent (db w) -> consistent (db (serve E rs w))).
Proof.
  split.
  - apply consistent_sound. exact empty_sound.
  - intros H. apply consistent_sound. apply serve_sound. apply consistent_sound. exact H.
Qed.

Lemma serve_keeps_consistent_witness :
  consistent
    (db (serve Demo.env
           [Demo.alice; Demo.mix 1; Demo.song_a; POST_playlists_songs 1 1;
            Demo.thumbnail 1 Demo.png; DELETE_playlists 1]
           empty_world)).
Proof.
  destruct (serve_keeps_consistent Demo.env
              [Demo.alice; Demo.mix 1; Demo.song_a; POST_playlists_songs 1 1;
               Demo.thumbnail 1 Demo.png; DELETE_playlists 1]
              empty_world) as [Hempty Hserve].
  apply Hserve. exact Hempty.
Defined.




(** X18: in a consistent database a new user is answered with its new
    id, its name and an empty list of playlists. *)
Theorem create_new_user_response (w : World) (name : string) :
  consistent (db w) ->
  exists w',
    create_new_user (Object (mkUserBody (Some name))) w
    = (Ok (success_response
             (JObj [("id", JInt (next_rowid (map user_id (users (db w)))));
                    ("username", JStr name);
                    ("playlists", JList [])]) 200), w').
Proof.
  intros H. apply consistent_sound in H. open_sound H.
  unfold create_new_user, bind, json_loads, ret, get, add_user.
  cbn [b_username fst snd db set_db]. eexists.
  unfold User_serialize, User_playlists.
  cbn [user_id username playlists set_users].
  rewrite filter_none; [reflexivity|].
  intros p Hp. apply Z.eqb_neq. intros Heq.
  apply (next_rowid_fresh (map user_id (users (db w)))). rewrite <- Heq. auto.
Qed.

Lemma create_new_user_response_witness :
  exists w',
    create_new_user (Object (mkUserBody (Some "alice"))) empty_world
    = (Ok (success_response
             (JObj [("id", JInt 1); ("username", JStr "alice");
                    ("playlists", JList [])]) 200), w').
Proof.
  apply (create_new_user_response empty_world "alice").
  apply consistent_sound. exact empty_sound.
Defined.

(** ** Routes that only read *)

(** X19: the search, the lookups and the listings change nothing:
    whatever they answer, and also when the search raises on its body,
    the world after is the world before. *)
Theorem read_routes_change_nothing (w : World) (data : payload BpmBody) (i : Z) :
  snd (get_songs_bpm data w) = w /\
  snd (get_user_playlists i w) = w /\
  snd (get_specific_playlist i w) = w /\
  snd (get_song_from_playlist i w) = w /\
  snd (get_all_users w) = w /\
  snd (get_all_songs w) = w /\
  snd (get_all_playlists w) = w /\
  snd (get_all_images w) = w.
Proof.
  split; [apply get_songs_bpm_reads|].
  split; [apply get_user_playlists_reads|].
  split; [apply get_specific_playlist_reads|].
  split; [apply get_song_from_playlist_reads|].
  split; [reflexivity|]. split; [reflexivity|]. split; [|reflexivity].
  unfold get_all_playlists, bind, query, get, ret, lift_result. cbn [fst snd].
  destruct (comprehension _ _); reflexivity.
Qed.

(** X20: after a song is created, its bpm within 64 bits, the song
    listing shows what it showed before followed by the new song's
    record. *)
Theorem get_all_songs_after_add (w : World) (t a : string) (b : Z) (l : string) :
  stored t a b l (db w) = false ->
  sqlite_integer b = true ->
  let s := mkSong (next_rowid (map song_id (songs (db w)))) t a b l in
  let w' := snd (add_song_to_database (song_request t a b l) w) in
  exists before,
    get_all_songs w
      = (Ok (success_response (JObj [("songs", JList before)]) 200), w) /\
    get_all_songs w'
      = (Ok (success_response
               (JObj [("songs", JList (before ++ [Song_simple_serialize s]))]) 200), w').
Proof.
  intros Hs Hb s. rewrite add_song_to_database_eq, Hs, Hb. cbv zeta. fold s. cbn [snd].
  eexists. unfold get_all_songs, bind, query, ret. cbn [fst snd db set_db songs set_songs].
  split; [reflexivity|]. rewrite map_app. reflexivity.
Qed.

Lemma get_all_songs_after_add_witness :
  let s := mkSong 1 "A" "B" 120 "http://x" in
  let w' := snd (add_song_to_database (song_request "A" "B" 120 "http://x") empty_world) in
  exists before,
    get_all_songs empty_world
      = (Ok (success_response (JObj [("songs", JList before)]) 200), empty_world) /\
    get_all_songs w'
      = (Ok (success_response
               (JObj [("songs", JList (before ++ [Song_simple_serialize s]))]) 200), w').
Proof.
  apply (get_all_songs_after_add empty_world "A" "B" 120 "http://x"); reflexivity.
Defined.

(** ** Users and songs are never deleted *)

Ltac same_rows := exists [], []; rewrite !app_nil_r; split; reflexivity.

Lemma handle_keeps_rows E req w :
  exists us ss,
    users (db (snd (handle E req w))) = (users (db w) ++ us)%list /\
    songs (db (snd (handle E req w))) = (songs (db w) ++ ss)%list.
Proof.
  destruct req; cbn [handle].
  - unfold create_new_user, bind, json_loads, raise, ret, get, add_user.
    destruct data as [| |body]; try same_rows. cbn [fst snd].
    destruct (b_username body); [|same_rows]. cbn [fst snd db set_db users songs set_users].
    eexists. exists []. split; [reflexivity | rewrite app_nil_r; reflexivity].
  - unfold add_song_to_database, bind, json_loads, raise, ret, query, add_song.
    destruct data as [| |body]; try same_rows. cbn [fst snd].
    destruct (b_title body), (b_artist body), (b_bpm body), (b_link body); try same_rows.
    destruct (py_in _ _); [same_rows|].
    destruct (sqlite_integer _); [|same_rows].
    cbn [fst snd db set_db users songs set_songs].
    exists []. eexists. split; [rewrite app_nil_r; reflexivity | reflexivity].
  - rewrite get_songs_bpm_reads. same_rows.
  - rewrite get_user_playlists_reads. same_rows.
  - unfold create_new_playlist, bind, query_first, json_loads, raise, ret, get, add_playlist.
    destruct (first_by_id _ _ _); [|same_rows].
    destruct data as [| |body]; try same_rows. cbn [fst snd].
    destruct (b_playlist_name body); same_rows.
  - rewrite get_specific_playlist_reads. same_rows.
  - unfold delete_playlist, bind, query_first, get, modify, ret, lift_result.
    destruct (first_by_id _ _ _) as [pl|]; [|same_rows]. cbn [fst snd].
    destruct (Playlist_serialize (db w) pl); [|same_rows].
    destruct (delete_playlist_row_frame pl (db w)) as [_ [Hs [Hu _]]].
    exists [], []. rewrite !app_nil_r. cbn. split; assumption.
  - destruct (first_by_id playlist_id playlist_id_ (playlists (db w))) as [pl|] eqn:Hp;
      [destruct (first_by_id song_id song_id_ (songs (db w))) as [sg|] eqn:Hs|].
    + rewrite (add_song_to_playlist_found E _ _ _ _ _ Hp Hs). same_rows.
    + unfold add_song_to_playlist, bind, query_first, ret. rewrite Hp, Hs. same_rows.
    + unfold add_song_to_playlist, bind, query_first, ret. rewrite Hp. same_rows.
  - destruct (first_by_id playlist_id playlist_id_ (playlists (db w))) as [pl|] eqn:Hp;
      [destruct (first_by_id song_id song_id_ (songs (db w))) as [sg|] eqn:Hs|].
    + rewrite (remove_song_from_playlist_found E _ _ _ _ _ Hp Hs).
      destruct (mem _ _); [destruct (Nat.eqb _ 1)|]; same_rows.
    + unfold remove_song_from_playlist, bind, query_first, ret. rewrite Hp, Hs. same_rows.
    + unfold remove_song_from_playlist, bind, query_first, ret. rewrite Hp. same_rows.
  - rewrite get_song_from_playlist_reads. same_rows.
  - unfold upload_playlist_image, bind, query_first, json_loads, raise, ret.
    destruct (first_by_id _ _ _) as [pl|]; [|same_rows].
    destruct data as [| |body]; try same_rows. cbn [fst snd].
    destruct (b_image_data body) as [image_data|]; [|same_rows].
    destruct (Asset_init_cases E image_data w) as [a [w1 [Hrun [Hdb _]]]].
    rewrite Hrun. unfold add_asset.
    destruct (Asset_not_null a); [|cbn [snd]; rewrite Hdb; same_rows].
    unfold add_image, get, lift_result. cbn [fst snd].
    match goal with
    | |- context [Img_serialize ?i ?o] => destruct (Img_serialize i o)
    end; unfold ret, raise;
      cbn [fst snd db set_db users songs set_playlists set_images set_assets];
      rewrite ?Hdb; same_rows.
  - unfold remove_playlist_image, bind, query_first, get, modify, raise, ret, lift_result.
    destruct (first_by_id _ _ _) as [pl|]; [|same_rows]. cbn [fst snd].
    destruct (image_id pl) as [i|]; [|same_rows].
    destruct (first_by_id img_id i _) as [img|]; [|same_rows].
    destruct (first_by_id asset_key i _) as [a|]; [|same_rows].
    unfold delete_asset_row, delete_image_row.
    destruct (Img_playlist (db w) (img_id img)); cbn; same_rows.
Qed.

Lemma serve_keeps_rows E rs w :
  exists us ss,
    users (db (serve E rs w)) = (users (db w) ++ us)%list /\
    songs (db (serve E rs w)) = (songs (db w) ++ ss)%list.
Proof.
  unfold serve. revert w. induction rs as [|r rs IH]; intros w; cbn [fold_left].
  - same_rows.
  - destruct (IH (snd (handle E r w))) as [us [ss [Hu Hs]]].
    destruct (handle_keeps_rows E r w) as [us0 [ss0 [Hu0 Hs0]]].
    exists (us0 ++ us)%list, (ss0 ++ ss)%list.
    rewrite Hu, Hs, Hu0, Hs0, !app_assoc. split; reflexivity.
Qed.

(** X21: no application request deletes or changes a user or a song:
    after any sequence of requests a user found under an id is still
    the one found under it, and GET /songs/{id} still answers with the
    record of the song that was stored under that id. *)
Theorem stored_users_and_songs_stay (E : Env) (rs : list request) (w : World) :
  (forall i u, first_by_id user_id i (users (db w)) = Some u ->
               first_by_id user_id i (users (db (serve E rs w))) = Some u) /\
  (forall i s, first_by_id song_id i (songs (db w)) = Some s ->
               get_song_from_playlist i (serve E rs w)
               = (Ok (success_response (Song_simple_serialize s) 200), serve E rs w)).
Proof.
  destruct (serve_keeps_rows E rs w) as [us [ss [Hu Hs]]]. split.
  - intros i u H. rewrite Hu. apply first_by_id_app_old. exact H.
  - intros i s H. unfold get_song_from_playlist, bind, query_first, ret.
    rewrite Hs, (first_by_id_app_old _ _ _ ss _ H). reflexivity.
Qed.

Lemma stored_users_and_songs_stay_witness :
  let w := serve Demo.env [Demo.alice; Demo.song_a] empty_world in
  let w' := serve Demo.env
              [Demo.mix 1; POST_playlists_songs 1 1; DELETE_playlists 1] w in
  first_by_id user_id 1 (users (db w')) = Some (mkUser 1 "alice") /\
  get_song_from_playlist 1 w'
  = (Ok (success_response (Song_simple_serialize (mkSong 1 "A" "B" 120 "http://x")) 200), w').
Proof.
  intros w w'.
  destruct (stored_users_and_songs_stay Demo.env
              [Demo.mix 1; POST_playlists_songs 1 1; DELETE_playlists 1] w) as [Hu Hs].
  split; [apply Hu | apply Hs]; reflexivity.
Defined.

(** ** Order in a playlist, and order of the checks *)

(** X22: a song added to a playlist that does not hold it yet comes
    last in the playlist's song list, after the songs already there in
    their order. *)
Theorem added_song_comes_last
  (E : Env) (w : World) (pid sid : Z) (p : Playlist) (s : Song) :
  first_by_id playlist_id pid (playlists (db w)) = Some p ->
  first_by_id song_id sid (songs (db w)) = Some s ->
  ~ In sid (Playlist_song_ids (db w) pid) ->
  let w' := snd (add_song_to_playlist E pid sid w) in
  Playlist_songs (db w') pid = (Playlist_songs (db w) pid ++ [s])%list.
Proof.
  intros Hp Hs Hnin. rewrite (add_song_to_playlist_found E _ _ _ _ _ Hp Hs).
  cbv zeta. cbn [snd db set_db].
  assert (Ha : appended_pairs E pid sid (Playlist_song_ids (db w) pid) = [(pid, sid)]).
  { unfold appended_pairs. apply mem_false in Hnin. rewrite Hnin. reflexivity. }
  rewrite Ha. unfold Playlist_songs.
  rewrite Playlist_song_ids_snoc by (auto; exact (first_by_id_exists _ _ _ Hs)).
  unfold with_pairs. cbn [songs]. rewrite flat_map_app. cbn [flat_map]. rewrite Hs, app_nil_r. reflexivity.
Qed.

Lemma added_song_comes_last_witness :
  let w := serve Demo.env [Demo.alice; Demo.mix 1; Demo.song_a] empty_world in
  let w' := snd (add_song_to_playlist Demo.env 1 1 w) in
  Playlist_songs (db w') 1
  = (Playlist_songs (db w) 1 ++ [mkSong 1 "A" "B" 120 "http://x"])%list.
Proof.
  intros w.
  apply (added_song_comes_last Demo.env w 1 1 (mkPlaylist 1 "mix" 1 None)
           (mkSong 1 "A" "B" 120 "http://x")).
  - reflexivity.
  - reflexivity.
  - vm_compute. intros [].
Defined.



(** X24: no handler guards [json.loads] or [body.get]: a body that is
    not JSON raises [JSONDecodeError] and a JSON body that is not an
    object raises [AttributeError] out of the handlers that read the
    body first, and out of the two that check the path entity first
    once that entity exists; nothing is stored. *)
Theorem unreadable_body_raises (E : Env) (w : World) (uid pid : Z) :
  let not_json := (Raise JSONDecodeError, w) in
  let not_object := (Raise AttributeError, w) in
  create_new_user NotJson w = not_json /\
  create_new_user NotObject w = not_object /\
  add_song_to_database NotJson w = not_json /\
  add_song_to_database NotObject w = not_object /\
  get_songs_bpm NotJson w = not_json /\
  get_songs_bpm NotObject w = not_object /\
  (first_by_id user_id uid (users (db w)) <> None ->
   create_new_playlist uid NotJson w = not_json /\
   create_new_playlist uid NotObject w = not_object) /\
  (first_by_id playlist_id pid (playlists (db w)) <> None ->
   upload_playlist_image E pid NotJson w = not_json /\
   upload_playlist_image E pid NotObject w = not_object).
Proof.
  cbv zeta. repeat (split; [reflexivity|]). split.
  - intros H. unfold create_new_playlist, bind, query_first.
    destruct (first_by_id user_id uid _); [|contradiction]. split; reflexivity.
  - intros H. unfold upload_playlist_image, bind, query_first.
    destruct (first_by_id playlist_id pid _); [|contradiction]. split; reflexivity.
Qed.

Lemma unreadable_body_raises_witness :
  let w := serve Demo.env [Demo.alice; Demo.mix 1] empty_world in
  create_new_playlist 1 NotJson w = (Raise JSONDecodeError, w) /\
  upload_playlist_image Demo.env 1 NotObject w = (Raise AttributeError, w).
Proof.
  intros w.
  destruct (unreadable_body_raises Demo.env w 1 1)
    as (_ & _ & _ & _ & _ & _ & Hplaylist & Himage).
  split.
  - apply Hplaylist. discriminate.
  - apply Himage. discriminate.
Defined.

(** ** The image a playlist shows *)

(** With a supported extension and a decodable image, [create] fills
    the object and hands the file name salt.extension to [upload]. *)
Lemma Asset_init_filled_run E data w ext img :
  guessed_extension E data = Some ext -> supported ext = true ->
  decoded E data = Some img ->
  Asset_init E data w
  = (Ok (mkAsset None (Some (S3_BASE_URL E)) (Some (salt_of E w)) (Some ext)
                 (Some (fst img)) (Some (snd img)) (Some (clock w))),
     snd (upload E (salt_of E w ++ "." ++ ext)
            (mkWorld (db w) (bucket w) (stdout w) (draws w + 16) (clock w)))).
Proof.
  unfold guessed_extension, decoded. intros Hext Hsup Hdec.
  unfold Asset_init, create, try_except, bind, from_option, on_world, on_self,
    ret, raise, get, random_salt, print.
  cbn [fst snd].
  destruct (guess_type E data) as [mime|]; [|discriminate].
  destruct (guess_extension E mime) as [dot_ext|]; [|discriminate].
  inversion Hext; subst ext. fold (supported (drop_first dot_ext)). rewrite Hsup.
  cbn [negb fst snd].
  destruct (b64decode E (re_sub_data_url E data)) as [bytes|]; [|discriminate].
  cbn [fst snd]. rewrite Hdec. cbn [fst snd salt extension py_str].
  match goal with
  | |- context [upload E ?name ?w0] =>
      destruct (upload_returns E name w0) as [w' [Hup _]]; rewrite Hup
  end.
  reflexivity.
Qed.

(** X25: when the image is usable and the bucket accepts every call,
    the link the upload answers with is the base URL followed by the
    name of an object that is now in the bucket and public. *)
Theorem uploaded_object_matches_link
    (E : Env) (w : World) (pid : Z) (p : Playlist) (data ext : string) (img : Z * Z) :
  first_by_id playlist_id pid (playlists (db w)) = Some p ->
  guessed_extension E data = Some ext ->
  supported ext = true ->
  decoded E data = Some img ->
  let name := salt_of E w ++ "." ++ ext in
  s3_fault E name = None ->
  exists body w',
    upload_playlist_image E pid (Object (mkImageBody (Some data))) w
      = (Ok (body, 201), w') /\
    subscript body "link" = JStr (S3_BASE_URL E ++ "/" ++ name) /\
    In (name, true) (bucket w') /\
    stdout w' = stdout w.
Proof.
  intros Hp Hext Hsup Hdec name Hok.
  destruct (first_by_id_some _ _ _ _ Hp) as [Hpid Hin].
  unfold upload_playlist_image, bind, query_first, json_loads, ret.
  rewrite Hp. cbn [b_image_data fst snd].
  rewrite (Asset_init_filled_run E data w ext img Hext Hsup Hdec). fold name.
  destruct (upload_returns E name
              (mkWorld (db w) (bucket w) (stdout w) (draws w + 16) (clock w)))
    as [w1 [Hup [Hdb [[_ [Hout Hobj]]|[step [Hf _]]]]]]; [|congruence].
  rewrite Hup. cbn [snd].
  unfold add_asset, Asset_not_null, add_image, get, lift_result.
  cbn [base_url salt extension width height created_at is_some andb
       db set_db set_assets set_images playlists images img_id assets].
  rewrite Hdb. cbn [db]. rewrite Hp.
  unfold Asset_url. cbn [base_url salt extension py_str].
  match goal with
  | |- context [Img_playlist ?d ?j] =>
      destruct (Img_playlist d j) as [owner|] eqn:Ho
  end.
  - do 2 eexists. split; [reflexivity|]. cbn [bucket stdout set_db].
    split; [reflexivity|]. split; [exact Hobj | exact Hout].
  - exfalso. revert Ho.
    apply (Img_playlist_found _ _
             (mkPlaylist (playlist_id p) (playlist_name p) (playlist_user_id p)
                         (Some (next_rowid (map img_id (images (db w))))))).
    + cbn. unfold set_image_id. apply in_map_iff. exists p. split; [|exact Hin].
      rewrite Hpid, Z.eqb_refl. reflexivity.
    + reflexivity.
Qed.

Lemma uploaded_object_matches_link_witness :
  let w := serve Demo.env [Demo.alice; Demo.mix 1] empty_world in
  exists body w',
    upload_playlist_image Demo.env 1 (Object (mkImageBody (Some Demo.png))) w
      = (Ok (body, 201), w') /\
    subscript body "link"
      = JStr (S3_BASE_URL Demo.env ++ "/" ++ (salt_of Demo.env w ++ "." ++ "png")) /\
    In ((salt_of Demo.env w ++ "." ++ "png")%string, true) (bucket w') /\
    stdout w' = stdout w.
Proof.
  intros w.
  apply (uploaded_object_matches_link Demo.env w 1
           (mkPlaylist 1 "mix" 1 None) Demo.png "png" (640, 480)); reflexivity.
Defined.

(** X26: after an upload of a usable image to an existing playlist,
    GET /playlists/{id}/ shows the playlist with the new image's id
    and link, and with its name, user and songs as before. *)
Theorem uploaded_image_shown
    (E : Env) (w : World) (pid : Z) (p : Playlist) (u : User)
    (data ext : string) (img : Z * Z) :
  first_by_id playlist_id pid (playlists (db w)) = Some p ->
  Playlist_user (db w) p = Some u ->
  guessed_extension E data = Some ext ->
  supported ext = true ->
  decoded E data = Some img ->
  let url := S3_BASE_URL E ++ "/" ++ salt_of E w ++ "." ++ ext in
  let iid := next_rowid (map img_id (images (db w))) in
  let w' := snd (upload_playlist_image E pid (Object (mkImageBody (Some data))) w) in
  get_specific_playlist pid w'
  = (Ok (success_response
           (JObj [("id", JInt pid);
                  ("playlist_name", JStr (playlist_name p));
                  ("image", JObj [("id", JInt iid); ("link", JStr url)]);
                  ("user", User_simple_serialize u);
                  ("songs", JList (map Song_simple_serialize
                                       (Playlist_songs (db w) pid)))]) 200), w').
Proof.
  intros Hp Hu Hext Hsup Hdec url iid w'.
  destruct (Asset_init_filled E data w ext img Hext Hsup Hdec) as [w1 [Hrun Hdb]].
  destruct (first_by_id_some _ _ _ _ Hp) as [Hpid _].
  set (kept := match Playlist_image (db w) p with
               | Some old => filter (fun r => negb (img_id r =? img_id old)) (images (db w))
               | None => images (db w)
               end).
  assert (Hfresh : ~ In iid (map img_id kept)).
  { unfold kept. intros Hin.
    apply (next_rowid_fresh (map img_id (images (db w)))). fold iid.
    destruct (Playlist_image (db w) p); [|exact Hin].
    apply in_map_iff in Hin. destruct Hin as [r [Hr Hin]]. apply filter_In in Hin.
    apply in_map_iff. exists r. tauto. }
  assert (Hw' : db w' =
    set_playlists (set_image_id pid (Some iid))
      (set_images (fun _ => (kept ++ [mkImg iid url])%list)
         (set_assets
            (fun rows =>
               (rows ++ [mkAsset (Some (next_rowid (map asset_key (assets (db w)))))
                                 (Some (S3_BASE_URL E)) (Some (salt_of E w)) (Some ext)
                                 (Some (fst img)) (Some (snd img)) (Some (clock w))])%list)
            (db w)))).
  { unfold w', upload_playlist_image, bind, query_first, json_loads, ret.
    rewrite Hp. cbn [b_image_data fst snd]. rewrite Hrun.
    unfold add_asset, Asset_not_null, add_image, get, lift_result.
    cbn [base_url salt extension width height created_at is_some andb
         db set_db set_assets set_images playlists images img_id assets].
    rewrite Hdb, Hp. fold iid.
    unfold Asset_url. cbn [base_url salt extension py_str]. fold url.
    match goal with
    | |- context [Playlist_image ?d p] =>
        change (Playlist_image d p) with (Playlist_image (db w) p)
    end.
    match goal with
    | |- context [Img_serialize ?i ?o] => destruct (Img_serialize i o)
    end; unfold ret, raise; cbn [fst snd db set_db]; rewrite ?Hdb; reflexivity. }
  unfold get_specific_playlist, bind, query_first, get, ret, lift_result.
  rewrite Hw'. cbn [playlists set_playlists set_images set_assets].
  rewrite (first_by_id_set_image_id_found pid (Some iid) _ p Hp).
  cbn [fst snd]. rewrite Hw'.
  unfold Playlist_serialize, Playlist_user, Playlist_image, Playlist_songs,
    Playlist_song_ids, song_exists in *.
  cbn [playlist_id playlist_name playlist_user_id image_id
       users playlists songs images association_table
       set_playlists set_images set_assets].
  rewrite Hu.
  pose proof (first_by_id_app_new img_id kept (mkImg iid url) Hfresh) as Hnew.
  cbn [img_id] in Hnew. rewrite Hnew.
  cbn [opt_json Img_simple_serialize img_id img_link]. rewrite Hpid. reflexivity.
Qed.

Lemma uploaded_image_shown_witness :
  let w := serve Demo.env [Demo.alice; Demo.mix 1] empty_world in
  let w' := snd (upload_playlist_image Demo.env 1
                   (Object (mkImageBody (Some Demo.png))) w) in
  get_specific_playlist 1 w'
  = (Ok (success_response
           (JObj [("id", JInt 1);
                  ("playlist_name", JStr "mix");
                  ("image",
                   JObj [("id", JInt (next_rowid (map img_id (images (db w)))));
                         ("link", JStr (S3_BASE_URL Demo.env ++ "/" ++
                                        salt_of Demo.env w ++ "." ++ "png"))]);
                  ("user", User_simple_serialize (mkUser 1 "alice"));
                  ("songs", JList (map Song_simple_serialize
                                       (Playlist_songs (db w) 1)))]) 200), w').
Proof.
  intros w.
  apply (uploaded_image_shown Demo.env w 1 (mkPlaylist 1 "mix" 1 None) (mkUser 1 "alice")
           Demo.png "png" (640, 480)); reflexivity.
Defined.

Lemma create_new_user_stores_user_witness :
  let w := serve Demo.env [Demo.alice] empty_world in
  exists body w',
    create_new_user (Object (mkUserBody (Some "bob"))) w = (Ok (body, 200), w') /\
    subscript body "id" = JInt 2 /\
    first_by_id user_id 2 (users (db w')) = Some (mkUser 2 "bob") /\
    first_by_id user_id 1 (users (db w')) = Some (mkUser 1 "alice").
Proof.
  intros w.
  destruct (create_new_user_stores_user w "bob")
    as [_ [body [w' (Hrun & Hid & _ & _ & _ & Hnew & Hold)]]].
  exists body, w'. split; [exact Hrun|]. split; [exact Hid|]. split; [exact Hnew|].
  apply Hold. reflexivity.
Defined.

Lemma upload_bucket_effects_witness :
  let w := serve Demo.env [Demo.alice; Demo.mix 1; Demo.thumbnail 1 Demo.png] empty_world in
  exists w',
    upload Demo.env "NEW.png" w = (Ok tt, w') /\
    In ("NEW.png", true) (bucket w') /\
    (In ("ABCDEFGHIJKLMNOP.png", true) (bucket w') <->
     In ("ABCDEFGHIJKLMNOP.png", true) (bucket w)).
Proof.
  intros w.
  destruct (upload_bucket_effects Demo.env "NEW.png" w)
    as [w' (Hrun & _ & Hothers & Hcase)].
  exists w'. split; [exact Hrun|]. split.
  - exact (proj1 Hcase).
  - apply Hothers. discriminate.
Defined.
